(** * Switch: the NeumorphicDropButton press controller and its click synthesiser

    A shallow embedding of [src/components/NeumorphicDropButton.tsx] (and of
    the [toggleSwitch] callback of [src/App.tsx]) together with the
    properties its specification states about it.

    The component is a closure over two pieces of React state, [isPressed]
    and the [audioContextRef] cell, and everything it does is a sequence of
    calls on the host: React setters, the Web Audio API, the event object
    and the [onToggle] prop.  The embedding therefore is a state monad over
    the component's state that also records, in program order, every call
    made on the host, and that can complete abruptly the way a JavaScript
    call can. *)

From Stdlib Require Import List Bool Arith PeanoNat ZArith NArith QArith Lia Lqa.
From Stdlib Require String.
Import ListNotations.
Import String.StringSyntax.

Open Scope Q_scope.
Delimit Scope string_scope with string.

(** ** The host platform *)

(** [OscillatorNode.type] *)
Inductive OscillatorType := sine | square | sawtooth | triangle.

(** [AudioContext.state] *)
Inductive AudioContextState := suspended | running | closed.

(** The argument of [playClickSound]: ['down' | 'up'].  The specification
    calls these the tone events Press and Release. *)
Inductive ClickType := down | up.

(** Where an audio node is connected to: another node, or [ctx.destination]. *)
Inductive Sink := node (id : nat) | destination.

(** The automatable parameters the code touches: [osc.frequency] and
    [gainNode.gain]. *)
Inductive AudioParam := frequency (osc : nat) | gain (gainNode : nat).

(** The DOM events wired to the button. *)
Inductive EventType := mousedown | mouseup | mouseleave | touchstart | touchend.

(** A call the component makes on its host.  Audio nodes are named by the
    order in which their context created them.  [PlayClickSound] is not a
    host call: it marks each entry into [playClickSound], so that the tone
    events a handler requests can be read off the record. *)
Inductive Call :=
| NewAudioContext (ctx : nat)
| Resume (ctx : nat)
| CreateGain (id : nat)
| CreateOscillator (id : nat)
| SetType (osc : nat) (ty : OscillatorType)
| SetValue (p : AudioParam) (v : Q)
| Connect (src : nat) (dst : Sink)
| SetValueAtTime (p : AudioParam) (v t : Q)
| ExponentialRampToValueAtTime (p : AudioParam) (v t : Q)
| Start (osc : nat) (t : Q)
| Stop (osc : nat) (t : Q)
| PreventDefault
| SetIsPressed (b : bool)
| PlayClickSound (type : ClickType)
| OnToggle.

(** An audio context constructor the window may expose. *)
Record Constructor := { ctorSampleRate : positive }.

(** What the host shows the component while one event is handled:
    the two global constructors, the [state] the audio context reports and
    the number of sample frames the audio clock has rendered. *)
Record Host := {
  AudioContext : option Constructor;
  webkitAudioContext : option Constructor;
  state : AudioContextState;
  currentFrame : N
}.

(** An [AudioContext] object. *)
Record AudioContextObj := {
  ctxId : nat;
  sampleRate : positive;
  nodeCount : nat
}.

(** [ctx.currentTime]: rendered frames over the sample rate, in seconds. *)
Definition currentTime (h : Host) (c : AudioContextObj) : Q :=
  Z.of_N (currentFrame h) # sampleRate c.

(** ** Component state *)

Record World := {
  isOn : bool;                                 (* App: useState(true) *)
  isPressed : bool;                            (* useState(false) *)
  audioContextRef : option AudioContextObj;    (* useRef(null) *)
  constructed : nat                            (* AudioContext objects made so far *)
}.

Definition initial : World :=
  {| isOn := true; isPressed := false; audioContextRef := None; constructed := 0 |}.

(** ** The monad: state, call record, abrupt completion *)

Inductive Exn := TypeError | RangeError.

Inductive Completion (A : Type) :=
| Normal (a : A)
| Throw (e : Exn).
Arguments Normal {A} a.
Arguments Throw {A} e.

Definition M (A : Type) : Type := World -> Completion A * World * list Call.

Definition ret {A} (a : A) : M A := fun w => (Normal a, w, []).

Definition bind {A B} (m : M A) (f : A -> M B) : M B :=
  fun w =>
    match m w with
    | (Normal a, w1, cs1) =>
        match f a w1 with
        | (r, w2, cs2) => (r, w2, cs1 ++ cs2)
        end
    | (Throw e, w1, cs1) => (Throw e, w1, cs1)
    end.

Definition throw {A} (e : Exn) : M A := fun w => (Throw e, w, []).
Definition call (c : Call) : M unit := fun w => (Normal tt, w, [c]).
Definition get : M World := fun w => (Normal w, w, []).
Definition put (w : World) : M unit := fun _ => (Normal tt, w, []).

Declare Scope js_scope.
Delimit Scope js_scope with js.
Notation "x <- m ;; k" := (bind m (fun x => k))
  (at level 61, m at next level, right associativity) : js_scope.
Notation "m ;; k" := (bind m (fun _ => k))
  (at level 61, right associativity) : js_scope.
Open Scope js_scope.

(** The three components of a run. *)
Abbreviation completion r := (fst (fst r)) (only parsing).
Abbreviation world r := (snd (fst r)) (only parsing).
Abbreviation calls r := (snd r) (only parsing).

(** ** Web Audio operations *)

(** Every method below is called on [ctx], which aliases
    [audioContextRef.current]; on [null] the call is a [TypeError]. *)
Definition withContext {A} (k : AudioContextObj -> M A) : M A :=
  w <- get ;;
  match audioContextRef w with
  | Some c => k c
  | None => throw TypeError
  end.

Definition setContext (c : AudioContextObj) : M unit :=
  w <- get ;;
  put {| isOn := isOn w; isPressed := isPressed w;
         audioContextRef := Some c; constructed := constructed w |}.

Definition newNode (mk : nat -> Call) : M nat :=
  withContext (fun c =>
    setContext {| ctxId := ctxId c; sampleRate := sampleRate c;
                  nodeCount := S (nodeCount c) |} ;;
    call (mk (nodeCount c)) ;;
    ret (nodeCount c)).

Definition ctx_createGain : M nat := newNode CreateGain.
Definition ctx_createOscillator : M nat := newNode CreateOscillator.

Definition ctx_currentTime (h : Host) : M Q :=
  withContext (fun c => ret (currentTime h c)).

(** Of the errors the Web Audio API defines for the methods below, the
    model keeps those that depend on the arguments: a time handed to the
    audio clock must not be negative, and an exponential ramp cannot end at
    zero; the platform answers either with a [RangeError]. *)
Definition validTime (t : Q) : bool := Qle_bool 0 t.
Definition validRampTarget (v : Q) : bool := negb (Qeq_bool v 0).

Definition setValueAtTime (p : AudioParam) (v t : Q) : M unit :=
  if validTime t then call (SetValueAtTime p v t) else throw RangeError.

Definition exponentialRampToValueAtTime (p : AudioParam) (v t : Q) : M unit :=
  if validRampTarget v && validTime t
  then call (ExponentialRampToValueAtTime p v t)
  else throw RangeError.

Definition start (osc : nat) (t : Q) : M unit :=
  if validTime t then call (Start osc t) else throw RangeError.

Definition stop (osc : nat) (t : Q) : M unit :=
  if validTime t then call (Stop osc t) else throw RangeError.

(** ** The component *)

(** [useState] setter of [isPressed]. *)
Definition setIsPressed (b : bool) : M unit :=
  w <- get ;;
  put {| isOn := isOn w; isPressed := b;
         audioContextRef := audioContextRef w; constructed := constructed w |} ;;
  call (SetIsPressed b).

(** [App.toggleSwitch], passed as the [onToggle] prop: [setIsOn(!isOn)]. *)
Definition onToggle : M unit :=
  w <- get ;;
  put {| isOn := negb (isOn w); isPressed := isPressed w;
         audioContextRef := audioContextRef w; constructed := constructed w |} ;;
  call OnToggle.

(** [window.AudioContext || (window as any).webkitAudioContext] *)
Definition audioContextConstructor (h : Host) : option Constructor :=
  match AudioContext h with
  | Some k => Some k
  | None => webkitAudioContext h
  end.

(** [new AudioContext()] stored into [audioContextRef.current]. *)
Definition newAudioContext (k : Constructor) : M unit :=
  w <- get ;;
  put {| isOn := isOn w; isPressed := isPressed w;
         audioContextRef :=
           Some {| ctxId := constructed w; sampleRate := ctorSampleRate k;
                   nodeCount := 0 |};
         constructed := S (constructed w) |} ;;
  call (NewAudioContext (constructed w)).

Definition getAudioContext (h : Host) : M (option AudioContextObj) :=
  w <- get ;;
  match audioContextRef w with
  | None =>
      match audioContextConstructor h with
      | Some k => newAudioContext k
      | None => ret tt
      end
  | Some _ => ret tt
  end ;;
  w <- get ;;
  match audioContextRef w, state h with
  | Some c, suspended => call (Resume (ctxId c))
  | _, _ => ret tt
  end ;;
  w <- get ;;
  ret (audioContextRef w).

Definition playClickSound (h : Host) (type : ClickType) : M unit :=
  call (PlayClickSound type) ;;
  ctx <- getAudioContext h ;;
  match ctx with
  | None => ret tt
  | Some _ =>
      t <- ctx_currentTime h ;;
      (* Master Gain *)
      masterGain <- ctx_createGain ;;
      call (SetValue (gain masterGain) 1.0) ;;
      call (Connect masterGain destination) ;;
      (* 1. The "Snap" *)
      snapOsc <- ctx_createOscillator ;;
      snapGain <- ctx_createGain ;;
      call (SetType snapOsc triangle) ;;
      call (Connect snapOsc (node snapGain)) ;;
      call (Connect snapGain (node masterGain)) ;;
      (* 2. The "Thud" *)
      bodyOsc <- ctx_createOscillator ;;
      bodyGain <- ctx_createGain ;;
      call (SetType bodyOsc sine) ;;
      call (Connect bodyOsc (node bodyGain)) ;;
      call (Connect bodyGain (node masterGain)) ;;
      match type with
      | down =>
          setValueAtTime (frequency snapOsc) 4500 t ;;
          exponentialRampToValueAtTime (frequency snapOsc) 1200 (t + 0.008) ;;
          setValueAtTime (gain snapGain) 0.7 t ;;
          exponentialRampToValueAtTime (gain snapGain) 0.001 (t + 0.012) ;;
          setValueAtTime (frequency bodyOsc) 400 t ;;
          exponentialRampToValueAtTime (frequency bodyOsc) 100 (t + 0.03) ;;
          setValueAtTime (gain bodyGain) 0.3 t ;;
          exponentialRampToValueAtTime (gain bodyGain) 0.001 (t + 0.03)
      | up =>
          setValueAtTime (frequency snapOsc) 2800 t ;;
          exponentialRampToValueAtTime (frequency snapOsc) 800 (t + 0.012) ;;
          setValueAtTime (gain snapGain) 0.5 t ;;
          exponentialRampToValueAtTime (gain snapGain) 0.001 (t + 0.012) ;;
          setValueAtTime (frequency bodyOsc) 300 t ;;
          exponentialRampToValueAtTime (frequency bodyOsc) 60 (t + 0.05) ;;
          setValueAtTime (gain bodyGain) 0.4 t ;;
          exponentialRampToValueAtTime (gain bodyGain) 0.001 (t + 0.05)
      end ;;
      (* Start and Cleanup *)
      start snapOsc t ;;
      stop snapOsc (t + 0.03) ;;
      start bodyOsc t ;;
      stop bodyOsc (t + 0.1)
  end.

Definition handlePressStart (h : Host) (e : EventType) : M unit :=
  setIsPressed true ;;
  playClickSound h down.

Definition handlePressEnd (h : Host) (e : EventType) : M unit :=
  match e with
  | touchend => call PreventDefault
  | _ => ret tt
  end ;;
  w <- get ;;
  if isPressed w then
    setIsPressed false ;;
    playClickSound h up ;;
    onToggle
  else ret tt.

Definition handleMouseLeave (h : Host) : M unit :=
  w <- get ;;
  if isPressed w then setIsPressed false else ret tt.

(** The listeners of the [<button>] element. *)
Definition button (h : Host) (e : EventType) : M unit :=
  match e with
  | mousedown => handlePressStart h e
  | mouseup => handlePressEnd h e
  | mouseleave => handleMouseLeave h
  | touchstart => handlePressStart h e
  | touchend => handlePressEnd h e
  end.

(** The source file carries a second revision of the component after the
    first.  Its [getAudioContext] and its handlers are the same (its
    [handlePressEnd] only lacks the [preventDefault] line); its
    [playClickSound] differs in the envelope constants. *)
Module OtherRevision.

Definition playClickSound (h : Host) (type : ClickType) : M unit :=
  call (PlayClickSound type) ;;
  ctx <- getAudioContext h ;;
  match ctx with
  | None => ret tt
  | Some _ =>
      t <- ctx_currentTime h ;;
      masterGain <- ctx_createGain ;;
      call (SetValue (gain masterGain) 1.0) ;;
      call (Connect masterGain destination) ;;
      snapOsc <- ctx_createOscillator ;;
      snapGain <- ctx_createGain ;;
      call (SetType snapOsc triangle) ;;
      call (Connect snapOsc (node snapGain)) ;;
      call (Connect snapGain (node masterGain)) ;;
      bodyOsc <- ctx_createOscillator ;;
      bodyGain <- ctx_createGain ;;
      call (SetType bodyOsc sine) ;;
      call (Connect bodyOsc (node bodyGain)) ;;
      call (Connect bodyGain (node masterGain)) ;;
      match type with
      | down =>
          setValueAtTime (frequency snapOsc) 4500 t ;;
          exponentialRampToValueAtTime (frequency snapOsc) 1200 (t + 0.01) ;;
          setValueAtTime (gain snapGain) 0.6 t ;;
          exponentialRampToValueAtTime (gain snapGain) 0.001 (t + 0.015) ;;
          setValueAtTime (frequency bodyOsc) 400 t ;;
          exponentialRampToValueAtTime (frequency bodyOsc) 100 (t + 0.04) ;;
          setValueAtTime (gain bodyGain) 0.2 t ;;
          exponentialRampToValueAtTime (gain bodyGain) 0.001 (t + 0.04)
      | up =>
          setValueAtTime (frequency snapOsc) 2800 t ;;
          exponentialRampToValueAtTime (frequency snapOsc) 800 (t + 0.015) ;;
          setValueAtTime (gain snapGain) 0.4 t ;;
          exponentialRampToValueAtTime (gain snapGain) 0.001 (t + 0.015) ;;
          setValueAtTime (frequency bodyOsc) 300 t ;;
          exponentialRampToValueAtTime (frequency bodyOsc) 60 (t + 0.06) ;;
          setValueAtTime (gain bodyGain) 0.3 t ;;
          exponentialRampToValueAtTime (gain bodyGain) 0.001 (t + 0.06)
      end ;;
      start snapOsc t ;;
      stop snapOsc (t + 0.03) ;;
      start bodyOsc t ;;
      stop bodyOsc (t + 0.1)
  end.

Definition handlePressStart (h : Host) : M unit :=
  setIsPressed true ;;
  playClickSound h down.

Definition handlePressEnd (h : Host) : M unit :=
  w <- get ;;
  if isPressed w then
    setIsPressed false ;;
    playClickSound h up ;;
    onToggle
  else ret tt.

Definition handleMouseLeave (h : Host) : M unit :=
  w <- get ;;
  if isPressed w then setIsPressed false else ret tt.

Definition button (h : Host) (e : EventType) : M unit :=
  match e with
  | mousedown => handlePressStart h
  | mouseup => handlePressEnd h
  | mouseleave => handleMouseLeave h
  | touchstart => handlePressStart h
  | touchend => handlePressEnd h
  end.

End OtherRevision.

(** A whole interaction: the events the button receives, each with the host
    as it is when the event is handled.  React re-renders between two
    events, so each handler sees the state the previous one left; an error a
    handler lets escape is reported by React and the page keeps running. *)
Fixpoint interact (inputs : list (Host * EventType)) (w : World)
  : World * list Call :=
  match inputs with
  | [] => (w, [])
  | (h, e) :: rest =>
      match button h e w with
      | (_, w1, cs1) =>
          match interact rest w1 with
          | (w2, cs2) => (w2, cs1 ++ cs2)
          end
      end
  end.

(** Successive calls of [getAudioContext], one per host snapshot. *)
Fixpoint getAudioContextTimes (hs : list Host) (w : World)
  : list (Completion (option AudioContextObj)) * World * list Call :=
  match hs with
  | [] => ([], w, [])
  | h :: rest =>
      match getAudioContext h w with
      | (r, w1, cs1) =>
          match getAudioContextTimes rest w1 with
          | (rs, w2, cs2) => (r :: rs, w2, cs1 ++ cs2)
          end
      end
  end.

(** ** Reading a call record *)

Definition createdOscillators (cs : list Call) : list nat :=
  flat_map (fun c => match c with CreateOscillator i => [i] | _ => [] end) cs.

Definition createdGains (cs : list Call) : list nat :=
  flat_map (fun c => match c with CreateGain i => [i] | _ => [] end) cs.

Definition oscillatorTypes (cs : list Call) : list (nat * OscillatorType) :=
  flat_map (fun c => match c with SetType i ty => [(i, ty)] | _ => [] end) cs.

Definition connections (cs : list Call) : list (nat * Sink) :=
  flat_map (fun c => match c with Connect i s => [(i, s)] | _ => [] end) cs.

Definition fixedValues (cs : list Call) : list (AudioParam * Q) :=
  flat_map (fun c => match c with SetValue p v => [(p, v)] | _ => [] end) cs.

(** Envelope start points: [(param, value, time)] of each [setValueAtTime]. *)
Definition envelopeStarts (cs : list Call) : list (AudioParam * Q * Q) :=
  flat_map (fun c => match c with SetValueAtTime p v t => [(p, v, t)] | _ => [] end) cs.

(** Envelope end points: [(param, value, time)] of each exponential ramp. *)
Definition envelopeEnds (cs : list Call) : list (AudioParam * Q * Q) :=
  flat_map (fun c =>
    match c with ExponentialRampToValueAtTime p v t => [(p, v, t)] | _ => [] end) cs.

Definition starts (cs : list Call) : list (nat * Q) :=
  flat_map (fun c => match c with Start i t => [(i, t)] | _ => [] end) cs.

Definition stops (cs : list Call) : list (nat * Q) :=
  flat_map (fun c => match c with Stop i t => [(i, t)] | _ => [] end) cs.

Definition constructions (cs : list Call) : list nat :=
  flat_map (fun c => match c with NewAudioContext i => [i] | _ => [] end) cs.

(** The tone events requested, in order. *)
Definition toneEvents (cs : list Call) : list ClickType :=
  flat_map (fun c => match c with PlayClickSound ty => [ty] | _ => [] end) cs.

Definition toggles (cs : list Call) : nat :=
  length (filter (fun c => match c with OnToggle => true | _ => false end) cs).

(** Calls on the Web Audio API. *)
Definition isAudioCall (c : Call) : bool :=
  match c with
  | PreventDefault | SetIsPressed _ | PlayClickSound _ | OnToggle => false
  | _ => true
  end.

Definition audioCalls (cs : list Call) : list Call := filter isAudioCall cs.

(** What the controller itself does: state updates, tone requests and the
    toggle callback. *)
Definition isControllerCall (c : Call) : bool :=
  match c with
  | SetIsPressed _ | PlayClickSound _ | OnToggle => true
  | _ => false
  end.

Definition controllerCalls (cs : list Call) : list Call := filter isControllerCall cs.

(** ** What one call of [getAudioContext] and [playClickSound] amounts to *)

(** The context [getAudioContext] hands back. *)
Definition contextFor (h : Host) (w : World) : option AudioContextObj :=
  match audioContextRef w with
  | Some c => Some c
  | None =>
      match audioContextConstructor h with
      | Some k => Some {| ctxId := constructed w; sampleRate := ctorSampleRate k;
                          nodeCount := 0 |}
      | None => None
      end
  end.

Definition constructedAfter (h : Host) (w : World) : nat :=
  match audioContextRef w, audioContextConstructor h with
  | None, Some _ => S (constructed w)
  | _, _ => constructed w
  end.

Definition acquireCalls (h : Host) (w : World) : list Call :=
  match audioContextRef w, audioContextConstructor h with
  | None, Some _ => [NewAudioContext (constructed w)]
  | _, _ => []
  end ++
  match contextFor h w, state h with
  | Some c, suspended => [Resume (ctxId c)]
  | _, _ => []
  end.

Definition withRef (w : World) (r : option AudioContextObj) (n : nat) : World :=
  {| isOn := isOn w; isPressed := isPressed w; audioContextRef := r;
     constructed := n |}.

Definition bump (k : nat) (c : AudioContextObj) : AudioContextObj :=
  {| ctxId := ctxId c; sampleRate := sampleRate c; nodeCount := k + nodeCount c |}.

(** The Web Audio calls of one click, on a context that has created [n]
    nodes so far and whose clock reads [t]. *)
Definition envelopeCalls (type : ClickType) (n : nat) (t : Q) : list Call :=
  match type with
  | down =>
      [ SetValueAtTime (frequency (1 + n)) 4500 t;
        ExponentialRampToValueAtTime (frequency (1 + n)) 1200 (t + 0.008);
        SetValueAtTime (gain (2 + n)) 0.7 t;
        ExponentialRampToValueAtTime (gain (2 + n)) 0.001 (t + 0.012);
        SetValueAtTime (frequency (3 + n)) 400 t;
        ExponentialRampToValueAtTime (frequency (3 + n)) 100 (t + 0.03);
        SetValueAtTime (gain (4 + n)) 0.3 t;
        ExponentialRampToValueAtTime (gain (4 + n)) 0.001 (t + 0.03) ]
  | up =>
      [ SetValueAtTime (frequency (1 + n)) 2800 t;
        ExponentialRampToValueAtTime (frequency (1 + n)) 800 (t + 0.012);
        SetValueAtTime (gain (2 + n)) 0.5 t;
        ExponentialRampToValueAtTime (gain (2 + n)) 0.001 (t + 0.012);
        SetValueAtTime (frequency (3 + n)) 300 t;
        ExponentialRampToValueAtTime (frequency (3 + n)) 60 (t + 0.05);
        SetValueAtTime (gain (4 + n)) 0.4 t;
        ExponentialRampToValueAtTime (gain (4 + n)) 0.001 (t + 0.05) ]
  end%nat.

Definition toneCalls (type : ClickType) (n : nat) (t : Q) : list Call :=
  [ CreateGain n; SetValue (gain n) 1.0; Connect n destination;
    CreateOscillator (1 + n); CreateGain (2 + n); SetType (1 + n) triangle;
    Connect (1 + n) (node (2 + n)); Connect (2 + n) (node n);
    CreateOscillator (3 + n); CreateGain (4 + n); SetType (3 + n) sine;
    Connect (3 + n) (node (4 + n)); Connect (4 + n) (node n) ]%nat
  ++ envelopeCalls type n t
  ++ [ Start (1 + n) t; Stop (1 + n) (t + 0.03);
       Start (3 + n) t; Stop (3 + n) (t + 0.1) ]%nat.

(** ** Vocabulary for the handlers *)

Definition setPressed (b : bool) (w : World) : World :=
  {| isOn := isOn w; isPressed := b; audioContextRef := audioContextRef w;
     constructed := constructed w |}.

Definition toggled (w : World) : World :=
  {| isOn := negb (isOn w); isPressed := isPressed w;
     audioContextRef := audioContextRef w; constructed := constructed w |}.

Definition isPress (e : EventType) : bool :=
  match e with mousedown | touchstart => true | _ => false end.

Definition isRelease (e : EventType) : bool :=
  match e with mouseup | touchend => true | _ => false end.

Definition isLeave (e : EventType) : bool :=
  match e with mouseleave => true | _ => false end.

Definition preventCalls (e : EventType) : list Call :=
  match e with touchend => [PreventDefault] | _ => [] end.

(** The Web Audio part of one [playClickSound] call. *)
Definition clickAudio (h : Host) (type : ClickType) (w : World) : list Call :=
  acquireCalls h w ++
  match contextFor h w with
  | Some c => toneCalls type (nodeCount c) (currentTime h c)
  | None => []
  end.

(** The specification's reading of the pressed flag: somewhere in the
    sequence there is a press, and no release and no leave comes after it. *)
Definition pressOutstanding (evs : list EventType) : Prop :=
  exists before e after,
    evs = before ++ e :: after /\ isPress e = true /\
    Forall (fun x => isRelease x = false /\ isLeave x = false) after.

(** The host with no audio capability that is otherwise like [h]. *)
Definition withoutAudio (h : Host) : Host :=
  {| AudioContext := None; webkitAudioContext := None;
     state := state h; currentFrame := currentFrame h |}.

(** Two hosts to run the component on: a browser whose audio context starts
    suspended, a tenth of a second into its audio clock, and a host that
    has no Web Audio at all. *)
Definition browser : Host :=
  {| AudioContext := Some {| ctorSampleRate := 48000 |};
     webkitAudioContext := None; state := suspended; currentFrame := 4800 |}.

Definition silentHost : Host := withoutAudio browser.

(** An interaction replayed on hosts without audio capability. *)
Definition muted (inputs : list (Host * EventType)) : list (Host * EventType) :=
  map (fun i => (withoutAudio (fst i), snd i)) inputs.

(** The controller of the specification (section 4.3), on its own: what
    one event does to the pressed flag, and which tone requests and toggle
    calls it makes, given the flag before the event. *)
Definition controllerStep (e : EventType) (pressed : bool) : bool * list Call :=
  if isPress e then (true, [SetIsPressed true; PlayClickSound down])
  else if isRelease e then
    if pressed then (false, [SetIsPressed false; PlayClickSound up; OnToggle])
    else (false, [])
  else
    if pressed then (false, [SetIsPressed false]) else (false, []).

(** At most one audio context has been made, and it is the one in the ref. *)
Definition singleContext (w : World) : Prop :=
  match audioContextRef w with
  | None => constructed w = 0%nat
  | Some c => constructed w = 1%nat /\ ctxId c = 0%nat
  end.

(** ** Reading a tone definition off the calls of one click *)

(** Starting frequency of each oscillator sweep: [(oscillator, Hz)]. *)
Definition startFrequencies (cs : list Call) : list (nat * Q) :=
  flat_map (fun x =>
    match x with (frequency i, v, _) => [(i, v)] | _ => [] end) (envelopeStarts cs).

(** Peak (starting) gain of each gain envelope: [(gain node, gain)]. *)
Definition peakGains (cs : list Call) : list (nat * Q) :=
  flat_map (fun x =>
    match x with (gain i, v, _) => [(i, v)] | _ => [] end) (envelopeStarts cs).

(** Duration of each ramp or decay window, measured from the reference
    time [t]: [(param, seconds)]. *)
Definition windows (t : Q) (cs : list Call) : list (AudioParam * Q) :=
  map (fun x => (fst (fst x), snd x - t)) (envelopeEnds cs).

(** Entry by entry, two readings are about the same node or parameter and
    their values are related by [R]. *)
Definition pairwise {K : Type} (R : Q -> Q -> Prop) (xs ys : list (K * Q)) : Prop :=
  Forall2 (fun x y => fst x = fst y /\ R (snd x) (snd y)) xs ys.

(** The comparison of the two tones as the specification words it: Release
    starts both sweeps lower, every one of its windows is longer, and its
    peak gains are different. *)
Definition releaseLowerLongerDifferent (h : Host) (w : World) (c : AudioContextObj)
  : Prop :=
  let press := calls (playClickSound h down w) in
  let release := calls (playClickSound h up w) in
  pairwise (fun p r => r < p) (startFrequencies press) (startFrequencies release) /\
  pairwise (fun p r => p < r)
           (windows (currentTime h c) press) (windows (currentTime h c) release) /\
  pairwise (fun p r => ~ p == r) (peakGains press) (peakGains release).

(** ** The rendered view *)

(** What [NeumorphicDropButton] returns, as far as it is told apart by a
    prop or by the state: the [style], [aria-label] and [aria-pressed] of
    the [<button>], the [className] of the icon wrapper, the [fill] of the
    circle and the [className] of the label.  (The remaining attributes of
    the tree are literals.) *)
Record ButtonView := {
  backgroundColor : String.string;
  boxShadow : String.string;
  transform : String.string;
  transitionProperty : String.string;
  transitionDuration : String.string;
  transitionTimingFunction : String.string;
  WebkitTapHighlightColor : String.string;
  ariaLabel : String.string;
  ariaPressed : bool;
  iconClassName : String.string;
  fill : String.string;
  labelClassName : String.string
}.

Open Scope string_scope.

Definition lightBase : String.string := "#E0E5EC".
Definition darkBase : String.string := "#535D6C".

Definition lightFlat : String.string :=
  "10px 10px 20px rgba(163,177,198,0.6), -10px -10px 20px rgba(255,255,255, 0.5)".
Definition lightPressed : String.string :=
  "inset 5px 5px 10px rgba(163,177,198, 0.7), inset -5px -5px 10px rgba(255,255,255, 0.8)".
Definition darkFlat : String.string :=
  "12px 12px 24px rgba(0,0,0,0.4), -8px -8px 16px rgba(255,255,255, 0.05)".
Definition darkPressed : String.string :=
  "inset 6px 6px 12px rgba(0,0,0,0.4), inset -6px -6px 12px rgba(255,255,255, 0.05)".

Definition currentBase (isOn : bool) : String.string :=
  if isOn then lightBase else darkBase.
Definition currentFlat (isOn : bool) : String.string :=
  if isOn then lightFlat else darkFlat.
Definition currentPressed (isOn : bool) : String.string :=
  if isOn then lightPressed else darkPressed.

Definition iconClass (isOn : bool) : String.string :=
  if isOn then "text-indigo-400 opacity-90"
  else "text-blue-300 drop-shadow-[0_0_8px_rgba(147,197,253,0.5)] opacity-80".

Definition labelClass (isOn : bool) : String.string :=
  if isOn then "text-indigo-400 opacity-90 drop-shadow-sm"
  else "text-blue-300 drop-shadow-[0_0_10px_rgba(147,197,253,0.3)] opacity-70".

Definition NeumorphicDropButton (isOn isPressed : bool) : ButtonView :=
  {| backgroundColor := currentBase isOn;
     boxShadow := if isPressed then currentPressed isOn else currentFlat isOn;
     transform := if isPressed then "scale(0.96)" else "scale(1)";
     transitionProperty := "background-color, box-shadow, transform";
     transitionDuration :=
       String.append "700ms, "
         (String.append (if isPressed then "50ms" else "150ms")
            (String.append ", " (if isPressed then "50ms" else "150ms")));
     transitionTimingFunction := "ease, ease-out, ease-out";
     WebkitTapHighlightColor := "transparent";
     ariaLabel := if isOn then "Turn Off" else "Turn On";
     ariaPressed := isPressed;
     iconClassName :=
       String.append "transition-all duration-700 ease-in-out " (iconClass isOn);
     fill := if isOn then "currentColor" else "none";
     labelClassName :=
       String.append
         "text-base md:text-xl font-medium tracking-[0.2em] select-none transition-all duration-700 ease-in-out "
         (labelClass isOn) |}.

(** [App]: the page background and the footer's [className]. *)
Definition App_backgroundColor (isOn : bool) : String.string :=
  if isOn then "#E0E5EC" else "#535D6C".

Definition App_footerClassName (isOn : bool) : String.string :=
  String.append
    "flex flex-col items-center gap-3 pb-8 transition-colors duration-700 ease-in-out "
    (if isOn then "text-slate-500" else "text-slate-400").

Close Scope string_scope.

(** The button as [App] renders it in a given state. *)
Definition view (w : World) : ButtonView :=
  NeumorphicDropButton (isOn w) (isPressed w).

(** ** Vocabulary for whole interactions *)

(** The release events that directly follow a press event, counted along a
    sequence of events; [pressed] tells whether the event before the first
    one was a press. *)
Fixpoint commits (pressed : bool) (evs : list EventType) : nat :=
  match evs with
  | [] => 0
  | e :: rest =>
      ((if pressed && isRelease e then 1 else 0) + commits (isPress e) rest)%nat
  end.

(** In a sequence of tones, every release tone comes directly after a
    press tone; [prev] is the tone before the first one, if any. *)
Fixpoint everyUpFollowsDown (prev : option ClickType) (ts : list ClickType) : bool :=
  match ts with
  | [] => true
  | down :: rest => everyUpFollowsDown (Some down) rest
  | up :: rest =>
      match prev with
      | Some down => everyUpFollowsDown (Some up) rest
      | _ => false
      end
  end.

Definition countTone (ty : ClickType) (ts : list ClickType) : nat :=
  length (filter (fun t => match t, ty with down, down | up, up => true | _, _ => false end) ts).

Definition resumes (cs : list Call) : list nat :=
  flat_map (fun c => match c with Resume i => [i] | _ => [] end) cs.

Definition setIsOn (b : bool) (w : World) : World :=
  {| isOn := b; isPressed := isPressed w; audioContextRef := audioContextRef w;
     constructed := constructed w |}.

(** ** Vocabulary for the envelopes of one click *)

(** Oscillator [o] is what parameter [p] shapes: [p] is its frequency, or
    the gain of the gain node it is connected to. *)
Definition shapes (cs : list Call) (o : nat) (p : AudioParam) : Prop :=
  p = frequency o \/ exists g, p = gain g /\ In (o, node g) (connections cs).

Definition sumQ (xs : list Q) : Q := fold_right Qplus 0 xs.

(** Every time the calls hand to the audio clock. *)
Definition scheduledTimes (cs : list Call) : list Q :=
  flat_map (fun c =>
    match c with
    | SetValueAtTime _ _ t | ExponentialRampToValueAtTime _ _ t
    | Start _ t | Stop _ t => [t]
    | _ => []
    end) cs.

Definition isEnvelopeCall (c : Call) : bool :=
  match c with
  | SetValueAtTime _ _ _ | ExponentialRampToValueAtTime _ _ _ => true
  | _ => false
  end.

(** A call record without the envelope points and without
    [preventDefault]: what the two revisions of the source have in common. *)
Definition skeleton (cs : list Call) : list Call :=
  filter (fun c => negb (isEnvelopeCall c) &&
                   match c with PreventDefault => false | _ => true end) cs.

(** The parameters the envelope calls are made on, in order. *)
Definition envelopeParams (cs : list Call) : list AudioParam :=
  flat_map (fun c =>
    match c with
    | SetValueAtTime p _ _ | ExponentialRampToValueAtTime p _ _ => [p]
    | _ => []
    end) cs.

(** The Web Audio calls of one click in the other revision. *)
Definition otherEnvelopeCalls (type : ClickType) (n : nat) (t : Q) : list Call :=
  match type with
  | down =>
      [ SetValueAtTime (frequency (1 + n)) 4500 t;
        ExponentialRampToValueAtTime (frequency (1 + n)) 1200 (t + 0.01);
        SetValueAtTime (gain (2 + n)) 0.6 t;
        ExponentialRampToValueAtTime (gain (2 + n)) 0.001 (t + 0.015);
        SetValueAtTime (frequency (3 + n)) 400 t;
        ExponentialRampToValueAtTime (frequency (3 + n)) 100 (t + 0.04);
        SetValueAtTime (gain (4 + n)) 0.2 t;
        ExponentialRampToValueAtTime (gain (4 + n)) 0.001 (t + 0.04) ]
  | up =>
      [ SetValueAtTime (frequency (1 + n)) 2800 t;
        ExponentialRampToValueAtTime (frequency (1 + n)) 800 (t + 0.015);
        SetValueAtTime (gain (2 + n)) 0.4 t;
        ExponentialRampToValueAtTime (gain (2 + n)) 0.001 (t + 0.015);
        SetValueAtTime (frequency (3 + n)) 300 t;
        ExponentialRampToValueAtTime (frequency (3 + n)) 60 (t + 0.06);
        SetValueAtTime (gain (4 + n)) 0.3 t;
        ExponentialRampToValueAtTime (gain (4 + n)) 0.001 (t + 0.06) ]
  end%nat.

Definition otherToneCalls (type : ClickType) (n : nat) (t : Q) : list Call :=
  [ CreateGain n; SetValue (gain n) 1.0; Connect n destination;
    CreateOscillator (1 + n); CreateGain (2 + n); SetType (1 + n) triangle;
    Connect (1 + n) (node (2 + n)); Connect (2 + n) (node n);
    CreateOscillator (3 + n); CreateGain (4 + n); SetType (3 + n) sine;
    Connect (3 + n) (node (4 + n)); Connect (4 + n) (node n) ]%nat
  ++ otherEnvelopeCalls type n t
  ++ [ Start (1 + n) t; Stop (1 + n) (t + 0.03);
       Start (3 + n) t; Stop (3 + n) (t + 0.1) ]%nat.

(** * Proofs *)

Lemma currentTime_nonneg h c : 0 <= currentTime h c.
Proof. unfold currentTime, Qle; simpl; lia. Qed.

Lemma validTime_currentTime h c : validTime (currentTime h c) = true.
Proof. apply Qle_bool_iff, currentTime_nonneg. Qed.

Lemma validTime_after h c d : 0 <= d -> validTime (currentTime h c + d) = true.
Proof.
  intros Hd. apply Qle_bool_iff.
  pose proof (currentTime_nonneg h c). lra.
Qed.

Lemma getAudioContext_run h w :
  getAudioContext h w =
  (Normal (contextFor h w),
   match contextFor h w with
   | Some c => withRef w (Some c) (constructedAfter h w)
   | None => w
   end,
   acquireCalls h w).
Proof.
  destruct w as [on pr [c|] n]; unfold getAudioContext, contextFor,
    constructedAfter, acquireCalls, withRef, bind, get; cbn.
  - destruct (state h); reflexivity.
  - destruct (audioContextConstructor h) as [k|]; cbn.
    + destruct (state h); reflexivity.
    + reflexivity.
Qed.

Lemma playClickSound_run h type w :
  playClickSound h type w =
  (Normal tt,
   match contextFor h w with
   | Some c => withRef w (Some (bump 5 c)) (constructedAfter h w)
   | None => w
   end,
   PlayClickSound type :: acquireCalls h w ++
   match contextFor h w with
   | Some c => toneCalls type (nodeCount c) (currentTime h c)
   | None => []
   end).
Proof.
  unfold playClickSound.
  unfold bind at 1. cbn [call].
  unfold bind at 1. rewrite getAudioContext_run.
  destruct (contextFor h w) as [c|] eqn:Hc.
  2:{ cbn. rewrite app_nil_r. reflexivity. }
  unfold ctx_currentTime, ctx_createGain, ctx_createOscillator, newNode,
    withContext, setContext, setValueAtTime, exponentialRampToValueAtTime,
    start, stop, bind, get, put, call, ret, withRef, toneCalls, envelopeCalls,
    bump.
  destruct type;
    repeat (cbn -[Qplus currentTime validTime];
            rewrite ?validTime_currentTime, ?validTime_after by lra);
    reflexivity.
Qed.

Lemma handlePressStart_run h e w :
  handlePressStart h e w =
  (Normal tt, world (playClickSound h down (setPressed true w)),
   SetIsPressed true :: calls (playClickSound h down (setPressed true w))).
Proof.
  unfold handlePressStart, setIsPressed, bind, get, put, call.
  cbn -[playClickSound].
  fold (setPressed true w). rewrite playClickSound_run. reflexivity.
Qed.

Lemma handlePressEnd_run h e w :
  handlePressEnd h e w =
  (Normal tt,
   if isPressed w
   then toggled (world (playClickSound h up (setPressed false w)))
   else w,
   preventCalls e ++
   if isPressed w
   then SetIsPressed false ::
        calls (playClickSound h up (setPressed false w)) ++ [OnToggle]
   else []).
Proof.
  unfold handlePressEnd.
  assert (Hrest :
    (w0 <- get ;;
     if isPressed w0
     then setIsPressed false ;; playClickSound h up ;; onToggle
     else ret tt) w =
    (Normal tt,
     if isPressed w
     then toggled (world (playClickSound h up (setPressed false w)))
     else w,
     if isPressed w
     then SetIsPressed false ::
          calls (playClickSound h up (setPressed false w)) ++ [OnToggle]
     else [])).
  { unfold setIsPressed, onToggle, bind, get, put, call, ret.
    cbn -[playClickSound].
    destruct (isPressed w) eqn:Hp; [|reflexivity].
    cbn -[playClickSound]. fold (setPressed false w).
    rewrite playClickSound_run. reflexivity. }
  unfold bind at 1.
  destruct e; cbn [call ret preventCalls]; rewrite Hrest; reflexivity.
Qed.

Lemma handleMouseLeave_run h w :
  handleMouseLeave h w =
  (Normal tt,
   if isPressed w then setPressed false w else w,
   if isPressed w then [SetIsPressed false] else []).
Proof.
  unfold handleMouseLeave, setIsPressed, bind, get, put, call, ret. cbn.
  destruct (isPressed w); reflexivity.
Qed.

(** The end-to-end scenario of the specification: mounted with the switch
    on, a press and a release on a browser leave the button released and
    the switch off, having requested the press tone and then the release
    tone and called [onToggle] once; the one audio context is made on the
    press and holds the ten nodes of the two clicks. *)
Example press_then_release :
  fst (interact [(browser, mousedown); (browser, mouseup)] initial) =
    {| isOn := false; isPressed := false;
       audioContextRef := Some {| ctxId := 0; sampleRate := 48000; nodeCount := 10 |};
       constructed := 1 |} /\
  controllerCalls (snd (interact [(browser, mousedown); (browser, mouseup)] initial)) =
    [SetIsPressed true; PlayClickSound down;
     SetIsPressed false; PlayClickSound up; OnToggle].
Proof. split; reflexivity. Qed.

Lemma button_completion h e w : completion (button h e w) = Normal tt.
Proof.
  destruct e; cbn [button];
    rewrite ?handlePressStart_run, ?handlePressEnd_run, ?handleMouseLeave_run;
    reflexivity.
Qed.

Lemma playClickSound_calls h type w :
  calls (playClickSound h type w) = PlayClickSound type :: clickAudio h type w.
Proof. rewrite playClickSound_run. reflexivity. Qed.

Lemma playClickSound_isPressed h type w :
  isPressed (world (playClickSound h type w)) = isPressed w.
Proof.
  rewrite playClickSound_run. cbn.
  destruct (contextFor h w); reflexivity.
Qed.

Lemma playClickSound_isOn h type w :
  isOn (world (playClickSound h type w)) = isOn w.
Proof.
  rewrite playClickSound_run. cbn.
  destruct (contextFor h w); reflexivity.
Qed.

Lemma clickAudio_audio h type w : forallb isAudioCall (clickAudio h type w) = true.
Proof.
  unfold clickAudio, acquireCalls, contextFor.
  destruct (audioContextRef w), (audioContextConstructor h), (state h), type;
    reflexivity.
Qed.

Section AudioOnly.
Variable cs : list Call.
Hypothesis Haudio : forallb isAudioCall cs = true.

Lemma audio_controllerCalls : controllerCalls cs = [].
Proof.
  unfold controllerCalls. induction cs as [|c l IH]; [reflexivity|].
  cbn in Haudio. apply andb_prop in Haudio as [Hc Hl].
  destruct c; try discriminate; cbn; auto.
Qed.

Lemma audio_toneEvents : toneEvents cs = [].
Proof.
  unfold toneEvents. induction cs as [|c l IH]; [reflexivity|].
  cbn in Haudio. apply andb_prop in Haudio as [Hc Hl].
  destruct c; try discriminate; cbn; auto.
Qed.

Lemma audio_toggles : toggles cs = 0%nat.
Proof.
  unfold toggles. induction cs as [|c l IH]; [reflexivity|].
  cbn in Haudio. apply andb_prop in Haudio as [Hc Hl].
  destruct c; try discriminate; cbn; auto.
Qed.

Lemma audio_audioCalls : audioCalls cs = cs.
Proof.
  unfold audioCalls. induction cs as [|c l IH]; [reflexivity|].
  cbn in Haudio. apply andb_prop in Haudio as [Hc Hl].
  cbn. rewrite Hc. f_equal. auto.
Qed.
End AudioOnly.

Lemma toggles_app cs1 cs2 : toggles (cs1 ++ cs2) = (toggles cs1 + toggles cs2)%nat.
Proof. unfold toggles. rewrite filter_app, length_app. reflexivity. Qed.

Lemma toneEvents_app cs1 cs2 : toneEvents (cs1 ++ cs2) = toneEvents cs1 ++ toneEvents cs2.
Proof. apply flat_map_app. Qed.

Lemma controllerCalls_app cs1 cs2 :
  controllerCalls (cs1 ++ cs2) = controllerCalls cs1 ++ controllerCalls cs2.
Proof. apply filter_app. Qed.

Lemma audioCalls_app cs1 cs2 : audioCalls (cs1 ++ cs2) = audioCalls cs1 ++ audioCalls cs2.
Proof. apply filter_app. Qed.

Lemma toggles_preventCalls e : toggles (preventCalls e) = 0%nat.
Proof. destruct e; reflexivity. Qed.

Lemma playClickSound_toggles h type w :
  toggles (calls (playClickSound h type w)) = 0%nat.
Proof.
  rewrite playClickSound_calls.
  change (toggles (PlayClickSound type :: clickAudio h type w))
    with (toggles (clickAudio h type w)).
  apply audio_toggles, clickAudio_audio.
Qed.

Lemma toggles_SetIsPressed b cs : toggles (SetIsPressed b :: cs) = toggles cs.
Proof. reflexivity. Qed.

(** How often one event makes the button call [onToggle]. *)
Lemma button_toggles h e w :
  toggles (calls (button h e w)) = if isPressed w && isRelease e then 1%nat else 0%nat.
Proof.
  destruct e; cbn [button isRelease];
    rewrite ?handlePressStart_run, ?handlePressEnd_run, ?handleMouseLeave_run;
    cbn [fst snd];
    rewrite ?andb_false_r, ?andb_true_r;
    try rewrite toggles_app, toggles_preventCalls;
    destruct (isPressed w);
    try rewrite toggles_SetIsPressed;
    try rewrite toggles_app;
    rewrite ?playClickSound_toggles;
    reflexivity.
Qed.

(** C1. A pointer-up or touch-end that arrives while the button is pressed
    completes normally, sets [isPressed] to false, then requests the release
    tone (whose Web Audio calls follow), and then calls [onToggle], once and
    last; and no other event, in no other state, calls [onToggle] at all. *)
Theorem release_while_pressed_commits (h : Host) (e : EventType) (w : World) :
  (isPressed w = true -> isRelease e = true ->
   completion (button h e w) = Normal tt /\
   isPressed (world (button h e w)) = false /\
   isOn (world (button h e w)) = negb (isOn w) /\
   (exists audio,
      forallb isAudioCall audio = true /\
      calls (button h e w) =
      preventCalls e ++
      [SetIsPressed false; PlayClickSound up] ++ audio ++ [OnToggle]) /\
   controllerCalls (calls (button h e w)) =
     [SetIsPressed false; PlayClickSound up; OnToggle] /\
   toggles (calls (button h e w)) = 1%nat) /\
  (toggles (calls (button h e w)) <> 0%nat ->
   isPressed w = true /\ isRelease e = true).
Proof.
  split.
  - intros Hp He. split; [apply button_completion|].
    assert (Hrun : button h e w =
      (Normal tt, toggled (world (playClickSound h up (setPressed false w))),
       preventCalls e ++ SetIsPressed false ::
         calls (playClickSound h up (setPressed false w)) ++ [OnToggle])).
    { destruct e; try discriminate He; cbn [button];
        rewrite handlePressEnd_run, Hp; reflexivity. }
    assert (Hw : world (button h e w) =
                 toggled (world (playClickSound h up (setPressed false w))))
      by (rewrite Hrun; reflexivity).
    assert (Hcs : calls (button h e w) =
                  preventCalls e ++ [SetIsPressed false; PlayClickSound up] ++
                  clickAudio h up (setPressed false w) ++ [OnToggle])
      by (rewrite Hrun; cbn [fst snd];
          rewrite playClickSound_calls; reflexivity).
    rewrite Hw, Hcs. cbn [toggled isPressed isOn].
    rewrite playClickSound_isPressed, playClickSound_isOn.
    repeat split.
    + exists (clickAudio h up (setPressed false w)).
      split; [apply clickAudio_audio | reflexivity].
    + rewrite !controllerCalls_app,
        (audio_controllerCalls _ (clickAudio_audio h up _)).
      destruct e; reflexivity.
    + rewrite <- Hcs, button_toggles, Hp, He. reflexivity.
  - rewrite button_toggles. destruct (isPressed w), (isRelease e); cbn; intuition congruence.
Qed.

Lemma release_while_pressed_commits_witness :
  completion (button browser touchend (setPressed true initial)) = Normal tt /\
  controllerCalls (calls (button browser touchend (setPressed true initial))) =
    [SetIsPressed false; PlayClickSound up; OnToggle].
Proof.
  destruct (release_while_pressed_commits browser touchend (setPressed true initial))
    as [H _].
  destruct (H eq_refl eq_refl) as (Hc & _ & _ & _ & Hcalls & _).
  split; [exact Hc | exact Hcalls].
Defined.

(** ** Pressing, leaving and the pressed flag *)

Lemma button_isPressed h e w : isPressed (world (button h e w)) = isPress e.
Proof.
  destruct e; cbn [button isPress];
    rewrite ?handlePressStart_run, ?handlePressEnd_run, ?handleMouseLeave_run;
    cbn [fst snd];
    rewrite ?playClickSound_isPressed; try reflexivity;
    destruct (isPressed w) eqn:Hp; cbn [toggled setPressed isPressed];
    rewrite ?playClickSound_isPressed; auto.
Qed.

Lemma interact_snoc inputs h e w :
  interact (inputs ++ [(h, e)]) w =
  (world (button h e (fst (interact inputs w))),
   snd (interact inputs w) ++ calls (button h e (fst (interact inputs w)))).
Proof.
  revert w. induction inputs as [|[h1 e1] rest IH]; intros w; cbn [interact app fst snd].
  - destruct (button h e w) as [[r w1] cs1]. cbn. rewrite app_nil_r. reflexivity.
  - destruct (button h1 e1 w) as [[r w1] cs1]. rewrite IH.
    destruct (interact rest w1) as [w2 cs2]. cbn [fst snd].
    rewrite app_assoc. reflexivity.
Qed.

Lemma event_kind e : isPress e = true <-> isRelease e = false /\ isLeave e = false.
Proof. destruct e; cbn; intuition congruence. Qed.

Lemma pressOutstanding_nil : ~ pressOutstanding [].
Proof.
  intros (before & e & after & Heq & _).
  destruct before; discriminate Heq.
Qed.

Lemma pressOutstanding_snoc evs e :
  pressOutstanding (evs ++ [e]) <-> isPress e = true.
Proof.
  split.
  - intros (before & x & after & Heq & Hx & Hafter).
    destruct (exists_last (l := x :: after)) as (l' & y & Hl); [discriminate|].
    assert (Hy : y = e).
    { rewrite Hl, app_assoc in Heq. apply app_inj_tail in Heq. symmetry. tauto. }
    subst y. destruct l' as [|x' l'']; cbn in Hl.
    + injection Hl as -> _. exact Hx.
    + injection Hl as _ Hafter'. subst after.
      apply Forall_app in Hafter as [_ He].
      inversion He; subst. apply event_kind. assumption.
  - intros He. exists evs, e, []. auto.
Qed.

(** C2. Whatever sequence of pointer and touch events the button has
    received since it was mounted, [isPressed] is true exactly when the
    sequence contains a press event that no release and no leave follows. *)
Theorem pressed_iff_press_outstanding (inputs : list (Host * EventType)) :
  isPressed (fst (interact inputs initial)) = true <->
  pressOutstanding (map snd inputs).
Proof.
  destruct inputs as [|i rest] using rev_ind.
  - cbn. split; [discriminate | intros H; destruct (pressOutstanding_nil H)].
  - destruct i as [h e]. rewrite interact_snoc, map_app. cbn [fst map snd].
    rewrite button_isPressed. symmetry. apply pressOutstanding_snoc.
Qed.

(** C10. A pointer-up or touch-end that arrives while the button is not
    pressed leaves the whole component state as it was: [isPressed] stays
    false, no tone is requested, no Web Audio call is made and [onToggle] is
    not called.  (On [touchend] the handler still calls [preventDefault] on
    the event, before it looks at the state.) *)
Theorem release_while_released_is_noop (h : Host) (e : EventType) (w : World) :
  isPressed w = false -> isRelease e = true ->
  button h e w = (Normal tt, w, preventCalls e) /\
  isPressed (world (button h e w)) = false /\
  toneEvents (calls (button h e w)) = [] /\
  audioCalls (calls (button h e w)) = [] /\
  controllerCalls (calls (button h e w)) = [] /\
  toggles (calls (button h e w)) = 0%nat.
Proof.
  intros Hp He.
  assert (Hrun : button h e w = (Normal tt, w, preventCalls e)).
  { destruct e; try discriminate He; cbn [button];
      rewrite handlePressEnd_run, Hp; reflexivity. }
  rewrite Hrun. cbn [fst snd].
  destruct e; try discriminate He; repeat split; assumption.
Qed.

Lemma release_while_released_is_noop_witness :
  button browser mouseup initial = (Normal tt, initial, []) /\
  button silentHost touchend initial = (Normal tt, initial, [PreventDefault]).
Proof.
  split.
  - apply (release_while_released_is_noop browser mouseup initial); reflexivity.
  - apply (release_while_released_is_noop silentHost touchend initial); reflexivity.
Defined.

Lemma playClickSound_toneEvents h type w :
  toneEvents (calls (playClickSound h type w)) = [type].
Proof.
  rewrite playClickSound_calls.
  change (toneEvents (PlayClickSound type :: clickAudio h type w))
    with (type :: toneEvents (clickAudio h type w)).
  rewrite audio_toneEvents by apply clickAudio_audio. reflexivity.
Qed.

Lemma playClickSound_audioCalls h type w :
  audioCalls (calls (playClickSound h type w)) = clickAudio h type w.
Proof.
  rewrite playClickSound_calls.
  change (audioCalls (PlayClickSound type :: clickAudio h type w))
    with (audioCalls (clickAudio h type w)).
  apply audio_audioCalls, clickAudio_audio.
Qed.

(** C3. A pointer-leave that arrives while the button is pressed sets
    [isPressed] to false and does nothing else: the rest of the state is
    untouched, no tone is requested, no Web Audio call is made, [onToggle]
    is not called.  So a press followed by a leave requests exactly one
    tone, the press tone, makes only that tone's Web Audio calls and never
    calls [onToggle]. *)
Theorem leave_while_pressed_aborts (h h' : Host) (e : EventType) (w : World) :
  (isPressed w = true ->
   button h mouseleave w = (Normal tt, setPressed false w, [SetIsPressed false]) /\
   toneEvents (calls (button h mouseleave w)) = [] /\
   audioCalls (calls (button h mouseleave w)) = [] /\
   toggles (calls (button h mouseleave w)) = 0%nat) /\
  (isPress e = true ->
   isPressed (fst (interact [(h, e); (h', mouseleave)] w)) = false /\
   toneEvents (snd (interact [(h, e); (h', mouseleave)] w)) = [down] /\
   audioCalls (snd (interact [(h, e); (h', mouseleave)] w)) =
     clickAudio h down (setPressed true w) /\
   toggles (snd (interact [(h, e); (h', mouseleave)] w)) = 0%nat).
Proof.
  split.
  - intros Hp.
    assert (Hrun : button h mouseleave w =
                   (Normal tt, setPressed false w, [SetIsPressed false])).
    { cbn [button]. rewrite handleMouseLeave_run, Hp. reflexivity. }
    rewrite Hrun. repeat split.
  - intros He.
    assert (Hstart : button h e w =
      (Normal tt, world (playClickSound h down (setPressed true w)),
       SetIsPressed true :: calls (playClickSound h down (setPressed true w)))).
    { destruct e; try discriminate He; cbn [button];
        apply handlePressStart_run. }
    cbn [interact]. rewrite Hstart. cbn [button].
    rewrite handleMouseLeave_run, playClickSound_isPressed.
    cbn [setPressed isPressed fst snd]. rewrite app_nil_r.
    repeat split.
    + change (toneEvents ((SetIsPressed true :: calls (playClickSound h down (setPressed true w))) ++ [SetIsPressed false]))
        with (toneEvents (calls (playClickSound h down (setPressed true w)) ++ [SetIsPressed false])).
      rewrite toneEvents_app, playClickSound_toneEvents. reflexivity.
    + change (audioCalls ((SetIsPressed true :: calls (playClickSound h down (setPressed true w))) ++ [SetIsPressed false]))
        with (audioCalls (calls (playClickSound h down (setPressed true w)) ++ [SetIsPressed false])).
      rewrite audioCalls_app, playClickSound_audioCalls. cbn. apply app_nil_r.
    + change (toggles ((SetIsPressed true :: calls (playClickSound h down (setPressed true w))) ++ [SetIsPressed false]))
        with (toggles (calls (playClickSound h down (setPressed true w)) ++ [SetIsPressed false])).
      rewrite toggles_app, playClickSound_toggles. reflexivity.
Qed.

Lemma leave_while_pressed_aborts_witness :
  button browser mouseleave (setPressed true initial) =
    (Normal tt, initial, [SetIsPressed false]) /\
  toneEvents (snd (interact [(browser, mousedown); (browser, mouseleave)] initial)) =
    [down] /\
  toggles (snd (interact [(browser, mousedown); (browser, mouseleave)] initial)) = 0%nat.
Proof.
  destruct (leave_while_pressed_aborts browser browser mousedown (setPressed true initial))
    as [H _].
  destruct (leave_while_pressed_aborts browser browser mousedown initial)
    as [_ H'].
  destruct (H eq_refl) as (Hrun & _).
  destruct (H' eq_refl) as (_ & Ht & _ & Hg).
  split; [exact Hrun | split; [exact Ht | exact Hg]].
Defined.

(** ** The controller does not depend on the audio engine *)

Lemma button_isOn h e w :
  isOn (world (button h e w)) =
  if isPressed w && isRelease e then negb (isOn w) else isOn w.
Proof.
  destruct e; cbn [button isRelease];
    rewrite ?handlePressStart_run, ?handlePressEnd_run, ?handleMouseLeave_run;
    cbn [fst snd];
    rewrite ?andb_false_r, ?andb_true_r, ?playClickSound_isOn; try reflexivity;
    destruct (isPressed w); cbn [toggled setPressed isOn];
    rewrite ?playClickSound_isOn; reflexivity.
Qed.

Lemma playClickSound_controllerCalls h type w :
  controllerCalls (calls (playClickSound h type w)) = [PlayClickSound type].
Proof.
  rewrite playClickSound_calls.
  change (controllerCalls (PlayClickSound type :: clickAudio h type w))
    with (PlayClickSound type :: controllerCalls (clickAudio h type w)).
  rewrite audio_controllerCalls by apply clickAudio_audio. reflexivity.
Qed.

Lemma controllerCalls_SetIsPressed b cs :
  controllerCalls (SetIsPressed b :: cs) = SetIsPressed b :: controllerCalls cs.
Proof. reflexivity. Qed.

Lemma controllerCalls_preventCalls e : controllerCalls (preventCalls e) = [].
Proof. destruct e; reflexivity. Qed.

(** The component refines the controller of the specification, whatever
    the host. *)
Lemma button_controllerStep h e w :
  (isPressed (world (button h e w)), controllerCalls (calls (button h e w))) =
  controllerStep e (isPressed w).
Proof.
  rewrite button_isPressed.
  destruct e; cbn [button controllerStep isPress isRelease];
    rewrite ?handlePressStart_run, ?handlePressEnd_run, ?handleMouseLeave_run;
    cbn [fst snd];
    try rewrite controllerCalls_app, controllerCalls_preventCalls;
    destruct (isPressed w);
    try rewrite controllerCalls_SetIsPressed;
    try rewrite controllerCalls_app;
    rewrite ?playClickSound_controllerCalls;
    reflexivity.
Qed.

Lemma interact_cons h e rest w :
  interact ((h, e) :: rest) w =
  (fst (interact rest (world (button h e w))),
   calls (button h e w) ++ snd (interact rest (world (button h e w)))).
Proof.
  cbn [interact]. destruct (button h e w) as [[r w1] cs1].
  cbn [fst snd].
  destruct (interact rest w1); reflexivity.
Qed.

Lemma interact_controller inputs1 :
  forall inputs2 w1 w2,
    map snd inputs1 = map snd inputs2 ->
    isPressed w1 = isPressed w2 -> isOn w1 = isOn w2 ->
    isPressed (fst (interact inputs1 w1)) = isPressed (fst (interact inputs2 w2)) /\
    isOn (fst (interact inputs1 w1)) = isOn (fst (interact inputs2 w2)) /\
    controllerCalls (snd (interact inputs1 w1)) =
    controllerCalls (snd (interact inputs2 w2)).
Proof.
  induction inputs1 as [|[h1 e1] rest1 IH]; intros [|[h2 e2] rest2] w1 w2 Hev Hp Hon;
    try discriminate Hev.
  - cbn. auto.
  - cbn [map snd] in Hev. injection Hev as -> Hrest.
    rewrite !interact_cons. cbn [fst snd].
    pose proof (button_controllerStep h1 e2 w1) as H1.
    pose proof (button_controllerStep h2 e2 w2) as H2.
    rewrite Hp in H1. rewrite <- H2 in H1. injection H1 as Hp' Hc'.
    destruct (IH rest2 (world (button h1 e2 w1)) (world (button h2 e2 w2)))
      as (IHp & IHon & IHc); auto.
    { rewrite !button_isOn, Hp, Hon. reflexivity. }
    rewrite !controllerCalls_app, Hc', IHc. auto.
Qed.

Lemma playClickSound_unavailable h type w :
  audioContextRef w = None -> audioContextConstructor h = None ->
  playClickSound h type w = (Normal tt, w, [PlayClickSound type]).
Proof.
  intros Hr Hk. rewrite playClickSound_run.
  unfold contextFor, acquireCalls, contextFor. rewrite Hr, Hk. reflexivity.
Qed.

Lemma button_unavailable h e w :
  audioContextRef w = None -> audioContextConstructor h = None ->
  audioContextRef (world (button h e w)) = None /\
  audioCalls (calls (button h e w)) = [].
Proof.
  intros Hr Hk.
  destruct e; cbn [button];
    rewrite ?handlePressStart_run, ?handlePressEnd_run, ?handleMouseLeave_run;
    cbn [fst snd];
    destruct (isPressed w);
    rewrite ?playClickSound_unavailable by assumption;
    cbn; auto.
Qed.

Lemma interact_muted inputs :
  forall w, audioContextRef w = None ->
    audioCalls (snd (interact (muted inputs) w)) = [].
Proof.
  induction inputs as [|[h e] rest IH]; intros w Hr; [reflexivity|].
  cbn [muted map fst snd]. fold (muted rest). rewrite interact_cons. cbn [snd].
  destruct (button_unavailable (withoutAudio h) e w Hr eq_refl) as [Hr' Ha].
  rewrite audioCalls_app, Ha, IH by assumption. reflexivity.
Qed.

Lemma map_snd_muted inputs : map snd (muted inputs) = map snd inputs.
Proof. unfold muted. rewrite map_map. reflexivity. Qed.

(** C4. When the host offers no audio context and none has been made,
    [playClickSound] returns normally for either tone, makes no Web Audio
    call and leaves the component state as it is; every button event still
    completes normally and moves [isPressed] as usual; and a whole
    interaction replayed without audio capability sets [isPressed] and
    [isOn] and makes its state updates, tone requests and toggle calls
    exactly as it does on the original hosts, only without any Web Audio
    call. *)
Theorem no_audio_capability_is_harmless
    (h : Host) (type : ClickType) (w : World) (inputs : list (Host * EventType)) :
  audioContextRef w = None -> audioContextConstructor h = None ->
  playClickSound h type w = (Normal tt, w, [PlayClickSound type]) /\
  audioCalls (calls (playClickSound h type w)) = [] /\
  (forall e,
     completion (button h e w) = Normal tt /\
     audioCalls (calls (button h e w)) = [] /\
     (isPressed (world (button h e w)), controllerCalls (calls (button h e w))) =
       controllerStep e (isPressed w)) /\
  isPressed (fst (interact (muted inputs) w)) = isPressed (fst (interact inputs w)) /\
  isOn (fst (interact (muted inputs) w)) = isOn (fst (interact inputs w)) /\
  controllerCalls (snd (interact (muted inputs) w)) =
    controllerCalls (snd (interact inputs w)) /\
  audioCalls (snd (interact (muted inputs) w)) = [].
Proof.
  intros Hr Hk.
  split; [apply playClickSound_unavailable; assumption|].
  split; [rewrite playClickSound_unavailable by assumption; reflexivity|].
  split.
  { intros e. split; [apply button_completion|].
    split; [apply button_unavailable; assumption | apply button_controllerStep]. }
  destruct (interact_controller (muted inputs) inputs w w (map_snd_muted inputs)
              eq_refl eq_refl) as (Hp & Hon & Hc).
  repeat split; try assumption.
  apply interact_muted, Hr.
Qed.

Lemma no_audio_capability_is_harmless_witness :
  playClickSound silentHost down initial = (Normal tt, initial, [PlayClickSound down]) /\
  controllerCalls
    (snd (interact (muted [(browser, touchstart); (browser, touchend)]) initial)) =
  controllerCalls (snd (interact [(browser, touchstart); (browser, touchend)] initial)).
Proof.
  destruct (no_audio_capability_is_harmless silentHost down initial
              [(browser, touchstart); (browser, touchend)] eq_refl eq_refl)
    as (Hplay & _ & _ & _ & _ & Hc & _).
  split; [exact Hplay | exact Hc].
Defined.

(** ** The audio context is made lazily, once *)

Lemma getAudioContext_existing h w c :
  audioContextRef w = Some c ->
  completion (getAudioContext h w) = Normal (Some c) /\
  world (getAudioContext h w) = w /\
  constructions (calls (getAudioContext h w)) = [].
Proof.
  intros Hr. rewrite getAudioContext_run.
  unfold contextFor, acquireCalls, contextFor, constructedAfter, withRef.
  rewrite Hr. cbn [fst snd].
  destruct w as [on pr r n]; cbn in *; subst r.
  destruct (state h); repeat split.
Qed.

Lemma getAudioContextTimes_cons h hs w :
  getAudioContextTimes (h :: hs) w =
  (completion (getAudioContext h w)
     :: fst (fst (getAudioContextTimes hs (world (getAudioContext h w)))),
   snd (fst (getAudioContextTimes hs (world (getAudioContext h w)))),
   calls (getAudioContext h w)
     ++ snd (getAudioContextTimes hs (world (getAudioContext h w)))).
Proof.
  cbn [getAudioContextTimes].
  destruct (getAudioContext h w) as [[r w1] cs1].
  cbn [fst snd].
  destruct (getAudioContextTimes hs w1) as [[rs w2] cs2]. reflexivity.
Qed.

Lemma constructions_app cs1 cs2 :
  constructions (cs1 ++ cs2) = constructions cs1 ++ constructions cs2.
Proof. apply flat_map_app. Qed.

Lemma getAudioContextTimes_existing hs :
  forall w c, audioContextRef w = Some c ->
    Forall (fun r => r = Normal (Some c)) (fst (fst (getAudioContextTimes hs w))) /\
    snd (fst (getAudioContextTimes hs w)) = w /\
    constructions (snd (getAudioContextTimes hs w)) = [].
Proof.
  induction hs as [|h rest IH]; intros w c Hr.
  - cbn. auto.
  - rewrite getAudioContextTimes_cons. cbn [fst snd].
    destruct (getAudioContext_existing h w c Hr) as (Hc & Hw & Hn).
    rewrite Hc, Hw, constructions_app, Hn.
    destruct (IH w c Hr) as (IH1 & IH2 & IH3).
    repeat split; auto.
Qed.

Lemma getAudioContext_fresh h w :
  audioContextRef w = None ->
  match audioContextConstructor h with
  | None =>
      getAudioContext h w = (Normal None, w, [])
  | Some k =>
      let c := {| ctxId := constructed w; sampleRate := ctorSampleRate k;
                  nodeCount := 0 |} in
      completion (getAudioContext h w) = Normal (Some c) /\
      world (getAudioContext h w) = withRef w (Some c) (S (constructed w)) /\
      constructions (calls (getAudioContext h w)) = [constructed w]
  end.
Proof.
  intros Hr. rewrite getAudioContext_run.
  unfold contextFor, acquireCalls, contextFor, constructedAfter.
  rewrite Hr. destruct (audioContextConstructor h) as [k|]; [|reflexivity].
  cbn [fst snd].
  destruct (state h); repeat split.
Qed.

Lemma getAudioContextTimes_fresh hs :
  forall w, audioContextRef w = None ->
    (forall c1 c2,
       In (Normal (Some c1)) (fst (fst (getAudioContextTimes hs w))) ->
       In (Normal (Some c2)) (fst (fst (getAudioContextTimes hs w))) ->
       c1 = c2) /\
    (length (constructions (snd (getAudioContextTimes hs w))) <= 1)%nat /\
    constructed (snd (fst (getAudioContextTimes hs w))) =
      (constructed w + length (constructions (snd (getAudioContextTimes hs w))))%nat.
Proof.
  induction hs as [|h rest IH]; intros w Hr.
  - cbn. repeat split; [tauto | lia | lia].
  - rewrite getAudioContextTimes_cons. cbn [fst snd].
    pose proof (getAudioContext_fresh h w Hr) as Hget.
    destruct (audioContextConstructor h) as [k|].
    + cbn zeta in Hget. destruct Hget as (Hc & Hw & Hn).
      rewrite Hc, Hw, constructions_app, Hn.
      set (c := {| ctxId := constructed w; sampleRate := ctorSampleRate k;
                   nodeCount := 0 |}).
      destruct (getAudioContextTimes_existing rest
                  (withRef w (Some c) (S (constructed w))) c eq_refl)
        as (Hall & Hw' & Hn').
      rewrite Hw', Hn'. cbn [app length withRef constructed].
      repeat split; [|lia|lia].
      assert (Hin : forall x,
        In (Normal (Some x))
           (Normal (Some c)
              :: fst (fst (getAudioContextTimes rest
                             (withRef w (Some c) (S (constructed w)))))) ->
        x = c).
      { intros x [Hx|Hx]; [congruence|].
        rewrite Forall_forall in Hall. apply Hall in Hx. congruence. }
      intros c1 c2 H1 H2. rewrite (Hin c1 H1), (Hin c2 H2). reflexivity.
    + rewrite Hget. cbn [fst snd app].
      destruct (IH w Hr) as (IH1 & IH2 & IH3).
      repeat split; [|assumption|assumption].
      intros c1 c2 [H1|H1] [H2|H2]; try discriminate; auto.
Qed.

Lemma singleContext_playClickSound h type w :
  singleContext w ->
  singleContext (world (playClickSound h type w)) /\
  constructed (world (playClickSound h type w)) =
    (constructed w + length (constructions (calls (playClickSound h type w))))%nat.
Proof.
  unfold singleContext. rewrite playClickSound_run.
  cbn [fst snd].
  unfold contextFor, acquireCalls, contextFor, constructedAfter, withRef, bump.
  destruct w as [on pr [c|] n]; cbn [audioContextRef constructed].
  - intros [Hn Hid]. destruct (state h), type; cbn; auto with arith.
  - intros Hn. destruct (audioContextConstructor h) as [k|].
    + destruct (state h), type; cbn; subst n; auto.
    + cbn. auto.
Qed.

Lemma constructions_preventCalls e : constructions (preventCalls e) = [].
Proof. destruct e; reflexivity. Qed.

Lemma singleContext_handlePressStart h e w :
  singleContext w ->
  singleContext (world (handlePressStart h e w)) /\
  constructed (world (handlePressStart h e w)) =
    (constructed w + length (constructions (calls (handlePressStart h e w))))%nat.
Proof.
  intros Hw. rewrite handlePressStart_run. cbn [fst snd].
  apply (singleContext_playClickSound h down (setPressed true w)), Hw.
Qed.

Lemma singleContext_handlePressEnd h e w :
  singleContext w ->
  singleContext (world (handlePressEnd h e w)) /\
  constructed (world (handlePressEnd h e w)) =
    (constructed w + length (constructions (calls (handlePressEnd h e w))))%nat.
Proof.
  intros Hw. rewrite handlePressEnd_run. cbn [fst snd].
  rewrite constructions_app, constructions_preventCalls. cbn [app].
  destruct (isPressed w).
  - destruct (singleContext_playClickSound h up (setPressed false w) Hw) as [Hs Hc].
    split; [exact Hs|].
    cbn [toggled constructed]. rewrite Hc.
    change (constructions (SetIsPressed false ::
              calls (playClickSound h up (setPressed false w)) ++ [OnToggle]))
      with (constructions (calls (playClickSound h up (setPressed false w)) ++ [OnToggle])).
    rewrite constructions_app, length_app. cbn. lia.
  - split; [exact Hw | cbn; lia].
Qed.

Lemma singleContext_button h e w :
  singleContext w ->
  singleContext (world (button h e w)) /\
  constructed (world (button h e w)) =
    (constructed w + length (constructions (calls (button h e w))))%nat.
Proof.
  intros Hw.
  destruct e; cbn [button];
    try (apply singleContext_handlePressStart, Hw);
    try (apply singleContext_handlePressEnd, Hw).
  rewrite handleMouseLeave_run. cbn [fst snd].
  destruct (isPressed w); (split; [exact Hw | cbn; lia]).
Qed.

Lemma singleContext_interact inputs :
  forall w, singleContext w ->
    singleContext (fst (interact inputs w)) /\
    constructed (fst (interact inputs w)) =
      (constructed w + length (constructions (snd (interact inputs w))))%nat.
Proof.
  induction inputs as [|[h e] rest IH]; intros w Hw.
  - cbn. split; [assumption | lia].
  - rewrite interact_cons. cbn [fst snd].
    destruct (singleContext_button h e w Hw) as [Hs Hc].
    destruct (IH _ Hs) as [IHs IHc].
    split; [assumption|].
    rewrite constructions_app, length_app. lia.
Qed.

Lemma singleContext_bound w : singleContext w -> (constructed w <= 1)%nat.
Proof.
  unfold singleContext. destruct (audioContextRef w); intros H; [destruct H|]; lia.
Qed.

(** C5. Once the ref holds an audio context, any number of successive
    [getAudioContext] calls, on whatever hosts, all return that same
    context, leave the state as it is and construct nothing.  Starting
    without a context, all the contexts that successive calls return are
    one and the same, and at most one is constructed.  And over a whole
    interaction with the button, counted from mounting, and any calls of
    [getAudioContext] after it, at most one audio context is ever
    constructed. *)
Theorem audio_context_is_a_singleton
    (hs : list Host) (inputs : list (Host * EventType))
    (w : World) (c : AudioContextObj) :
  (audioContextRef w = Some c ->
   Forall (fun r => r = Normal (Some c)) (fst (fst (getAudioContextTimes hs w))) /\
   snd (fst (getAudioContextTimes hs w)) = w /\
   constructions (snd (getAudioContextTimes hs w)) = []) /\
  (audioContextRef w = None ->
   (forall c1 c2,
      In (Normal (Some c1)) (fst (fst (getAudioContextTimes hs w))) ->
      In (Normal (Some c2)) (fst (fst (getAudioContextTimes hs w))) ->
      c1 = c2) /\
   (length (constructions (snd (getAudioContextTimes hs w))) <= 1)%nat) /\
  (constructed (fst (interact inputs initial)) <= 1)%nat /\
  (length (constructions (snd (interact inputs initial)) ++
           constructions (snd (getAudioContextTimes hs (fst (interact inputs initial)))))
   <= 1)%nat.
Proof.
  split; [apply getAudioContextTimes_existing|].
  split.
  { intros Hr. destruct (getAudioContextTimes_fresh hs w Hr) as (H1 & H2 & _).
    split; assumption. }
  destruct (singleContext_interact inputs initial eq_refl) as [Hs Hc].
  split; [apply singleContext_bound, Hs|].
  rewrite length_app. cbn [initial constructed] in Hc.
  pose proof (singleContext_bound _ Hs) as Hb.
  destruct (audioContextRef (fst (interact inputs initial))) as [c'|] eqn:Hr.
  - destruct (getAudioContextTimes_existing hs _ c' Hr) as (_ & _ & Hn).
    rewrite Hn. cbn. lia.
  - destruct (getAudioContextTimes_fresh hs _ Hr) as (_ & Hn & _).
    unfold singleContext in Hs. rewrite Hr in Hs. lia.
Qed.

Lemma audio_context_is_a_singleton_witness :
  fst (fst (getAudioContextTimes [browser; silentHost; browser]
              (fst (interact [(browser, mousedown)] initial)))) =
  [Normal (Some {| ctxId := 0; sampleRate := 48000; nodeCount := 5 |});
   Normal (Some {| ctxId := 0; sampleRate := 48000; nodeCount := 5 |});
   Normal (Some {| ctxId := 0; sampleRate := 48000; nodeCount := 5 |})] /\
  (length (constructions (snd (getAudioContextTimes [silentHost; browser; browser] initial)))
   <= 1)%nat.
Proof.
  destruct (audio_context_is_a_singleton [browser; silentHost; browser] []
              (fst (interact [(browser, mousedown)] initial))
              {| ctxId := 0; sampleRate := 48000; nodeCount := 5 |})
    as (H & _).
  destruct (audio_context_is_a_singleton [silentHost; browser; browser] []
              initial {| ctxId := 0; sampleRate := 48000; nodeCount := 5 |})
    as (_ & H' & _).
  destruct (H eq_refl) as (Hall & _).
  destruct (H' eq_refl) as (_ & Hlen).
  split; [|exact Hlen].
  inversion Hall as [|r1 l1 E1 Hall1]; subst.
  inversion Hall1 as [|r2 l2 E2 Hall2]; subst.
  inversion Hall2 as [|r3 l3 E3 Hall3]; subst.
  reflexivity.
Defined.

(** ** A failed construction is retried *)

Lemma getAudioContext_none h w :
  completion (getAudioContext h w) = Normal None ->
  audioContextRef w = None /\ audioContextConstructor h = None /\
  getAudioContext h w = (Normal None, w, []).
Proof.
  rewrite getAudioContext_run. cbn [fst snd].
  unfold acquireCalls, contextFor.
  destruct (audioContextRef w) as [c|]; [discriminate|].
  destruct (audioContextConstructor h) as [k|]; [discriminate|].
  auto.
Qed.

Lemma getAudioContextTimes_none hs :
  forall w,
    Forall (fun r => r = Normal None) (fst (fst (getAudioContextTimes hs w))) ->
    getAudioContextTimes hs w = (map (fun _ => Normal None) hs, w, []).
Proof.
  induction hs as [|h rest IH]; intros w Hall; [reflexivity|].
  rewrite getAudioContextTimes_cons in *. cbn [fst snd] in Hall.
  inversion Hall as [|r l Hr Hrest]; subst.
  destruct (getAudioContext_none h w Hr) as (_ & _ & Hrun).
  rewrite Hrun in *. cbn [fst snd] in *.
  rewrite (IH w Hrest). reflexivity.
Qed.

(** C9. If one or more successive [getAudioContext] calls all come back
    empty-handed, nothing of that is remembered: the state is exactly what
    it was, with the ref still empty, and the next call on a host that does
    offer a constructor constructs a context, stores it and returns it. *)
Theorem construction_failure_is_not_cached
    (h : Host) (hs : list Host) (h' : Host) (w : World) :
  Forall (fun r => r = Normal None)
         (fst (fst (getAudioContextTimes (h :: hs) w))) ->
  audioContextConstructor h' <> None ->
  snd (fst (getAudioContextTimes (h :: hs) w)) = w /\
  audioContextRef w = None /\
  exists c,
    completion (getAudioContext h' (snd (fst (getAudioContextTimes (h :: hs) w))))
      = Normal (Some c) /\
    audioContextRef
      (world (getAudioContext h' (snd (fst (getAudioContextTimes (h :: hs) w)))))
      = Some c /\
    constructions
      (calls (getAudioContext h' (snd (fst (getAudioContextTimes (h :: hs) w)))))
      = [ctxId c].
Proof.
  intros Hall Hk.
  pose proof (getAudioContextTimes_none (h :: hs) w Hall) as Hrun.
  rewrite Hrun. cbn [fst snd].
  rewrite getAudioContextTimes_cons in Hall. cbn [fst snd] in Hall.
  inversion Hall as [|r l Hr _]; subst.
  destruct (getAudioContext_none h w Hr) as (Href & _ & _).
  split; [reflexivity|]. split; [assumption|].
  pose proof (getAudioContext_fresh h' w Href) as Hget.
  destruct (audioContextConstructor h') as [k|]; [|congruence].
  cbn zeta in Hget. destruct Hget as (Hc & Hw & Hn).
  eexists. split; [exact Hc|]. rewrite Hw. split; [reflexivity | exact Hn].
Qed.

Lemma construction_failure_is_not_cached_witness :
  snd (fst (getAudioContextTimes [silentHost; silentHost] initial)) = initial /\
  exists c,
    completion (getAudioContext browser
                  (snd (fst (getAudioContextTimes [silentHost; silentHost] initial))))
    = Normal (Some c).
Proof.
  assert (Hall : Forall (fun r : Completion (option AudioContextObj) => r = Normal None)
                   (fst (fst (getAudioContextTimes [silentHost; silentHost] initial)))).
  { repeat constructor. }
  assert (Hk : audioContextConstructor browser <> None) by discriminate.
  destruct (construction_failure_is_not_cached silentHost [silentHost] browser
              initial Hall Hk) as (Hw & _ & c & Hc & _).
  split; [exact Hw | exists c; exact Hc].
Defined.

(** ** The audio graph and schedule of one click *)

Lemma playClickSound_available h type w c :
  contextFor h w = Some c ->
  exists before,
    forallb (fun x => match x with PlayClickSound _ | NewAudioContext _ | Resume _ => true
                               | _ => false end) before = true /\
    calls (playClickSound h type w) =
      before ++ toneCalls type (nodeCount c) (currentTime h c).
Proof.
  intros Hc. rewrite playClickSound_run. cbn [fst snd]. rewrite Hc.
  exists (PlayClickSound type :: acquireCalls h w). split; [|reflexivity].
  unfold acquireCalls. rewrite Hc.
  destruct (audioContextRef w), (audioContextConstructor h), (state h); reflexivity.
Qed.

Section Preamble.
Variable before : list Call.
Hypothesis Hbefore :
  forallb (fun x => match x with PlayClickSound _ | NewAudioContext _ | Resume _ => true
                             | _ => false end) before = true.

Lemma preamble_flat_map {B} (f : Call -> list B) :
  (forall ty, f (PlayClickSound ty) = []) ->
  (forall i, f (NewAudioContext i) = []) ->
  (forall i, f (Resume i) = []) ->
  forall rest, flat_map f (before ++ rest) = flat_map f rest.
Proof.
  intros H1 H2 H3 rest. rewrite flat_map_app.
  replace (flat_map f before) with (@nil B); [reflexivity|].
  induction before as [|x l IH]; [reflexivity|].
  cbn in Hbefore. apply andb_prop in Hbefore as [Hx Hl].
  cbn. rewrite <- (IH Hl).
  destruct x; try discriminate Hx; rewrite ?H1, ?H2, ?H3; reflexivity.
Qed.
End Preamble.

Ltac read_click type Hc :=
  let before := fresh "before" in
  let Hb := fresh "Hb" in
  let Hcs := fresh "Hcs" in
  destruct (playClickSound_available _ type _ _ Hc) as (before & Hb & Hcs);
  rewrite Hcs;
  unfold createdOscillators, createdGains, oscillatorTypes, connections,
    fixedValues, starts, stops, windows, startFrequencies, peakGains,
    envelopeStarts, envelopeEnds;
  rewrite !(preamble_flat_map before Hb) by reflexivity;
  clear Hcs Hb before.

(** C6. Every [playClickSound] call that obtains an audio context, for
    either tone, completes normally and builds the same graph out of five
    new, distinct nodes: exactly two oscillators, the first set to a
    triangle wave (the snap) and the second to a sine wave (the body);
    exactly three gain nodes; each oscillator connected to a gain node of
    its own, each of these connected to the master gain node, and the master
    connected to the context's destination, with no other connection; the
    master's gain set to 1 and never automated. *)
Theorem click_builds_two_voice_graph
    (h : Host) (type : ClickType) (w : World) (c : AudioContextObj) :
  contextFor h w = Some c ->
  completion (playClickSound h type w) = Normal tt /\
  exists masterGain snapOsc snapGain bodyOsc bodyGain,
    NoDup [masterGain; snapOsc; snapGain; bodyOsc; bodyGain] /\
    Forall (fun i => (nodeCount c <= i)%nat)
           [masterGain; snapOsc; snapGain; bodyOsc; bodyGain] /\
    createdOscillators (calls (playClickSound h type w)) = [snapOsc; bodyOsc] /\
    oscillatorTypes (calls (playClickSound h type w)) =
      [(snapOsc, triangle); (bodyOsc, sine)] /\
    createdGains (calls (playClickSound h type w)) =
      [masterGain; snapGain; bodyGain] /\
    connections (calls (playClickSound h type w)) =
      [(masterGain, destination);
       (snapOsc, node snapGain); (snapGain, node masterGain);
       (bodyOsc, node bodyGain); (bodyGain, node masterGain)] /\
    fixedValues (calls (playClickSound h type w)) = [(gain masterGain, 1.0)] /\
    Forall (fun x => fst (fst x) <> gain masterGain)
           (envelopeStarts (calls (playClickSound h type w)) ++
            envelopeEnds (calls (playClickSound h type w))).
Proof.
  intros Hc. split; [rewrite playClickSound_run; reflexivity|].
  exists (nodeCount c), (1 + nodeCount c)%nat, (2 + nodeCount c)%nat,
         (3 + nodeCount c)%nat, (4 + nodeCount c)%nat.
  split.
  { repeat constructor; cbn; intuition lia. }
  split.
  { repeat constructor; lia. }
  read_click type Hc.
  destruct type; cbn -[Qplus currentTime]; repeat split.
  all: repeat constructor; cbn; try discriminate; intros H; injection H; lia.
Qed.

Lemma click_builds_two_voice_graph_witness :
  completion (playClickSound browser up initial) = Normal tt /\
  exists snapOsc bodyOsc,
    createdOscillators (calls (playClickSound browser up initial)) =
      [snapOsc; bodyOsc] /\
    oscillatorTypes (calls (playClickSound browser up initial)) =
      [(snapOsc, triangle); (bodyOsc, sine)].
Proof.
  destruct (click_builds_two_voice_graph browser up initial
              {| ctxId := 0; sampleRate := 48000; nodeCount := 0 |} eq_refl)
    as (Hn & m & so & sg & bo & bg & _ & _ & Ho & Hty & _).
  split; [exact Hn|]. exists so, bo. split; [exact Ho | exact Hty].
Defined.

(** C7. For either tone, the triangle (snap) oscillator is started at the
    reference time [t = ctx.currentTime] and stopped at [t + 0.03], the
    sine (body) oscillator is started at [t] and stopped at [t + 0.1], and
    so the snap's stop time is strictly before the body's. *)
Theorem click_stop_times
    (h : Host) (type : ClickType) (w : World) (c : AudioContextObj) :
  contextFor h w = Some c ->
  exists snapOsc bodyOsc,
    oscillatorTypes (calls (playClickSound h type w)) =
      [(snapOsc, triangle); (bodyOsc, sine)] /\
    starts (calls (playClickSound h type w)) =
      [(snapOsc, currentTime h c); (bodyOsc, currentTime h c)] /\
    stops (calls (playClickSound h type w)) =
      [(snapOsc, currentTime h c + 0.03); (bodyOsc, currentTime h c + 0.1)] /\
    currentTime h c + 0.03 < currentTime h c + 0.1.
Proof.
  intros Hc.
  exists (1 + nodeCount c)%nat, (3 + nodeCount c)%nat.
  read_click type Hc.
  destruct type; cbn -[Qplus currentTime]; repeat split; lra.
Qed.

Lemma click_stop_times_witness :
  exists snapOsc bodyOsc,
    stops (calls (playClickSound browser down initial)) =
      [(snapOsc, (4800 # 48000) + 0.03); (bodyOsc, (4800 # 48000) + 0.1)] /\
    (4800 # 48000) + 0.03 < (4800 # 48000) + 0.1.
Proof.
  destruct (click_stop_times browser down initial
              {| ctxId := 0; sampleRate := 48000; nodeCount := 0 |} eq_refl)
    as (so & bo & _ & _ & Hstop & Hlt).
  exists so, bo. split; [exact Hstop | exact Hlt].
Defined.

(** ** Press tone against release tone *)

(** C8, as the specification words it, fails on the code: the snap's gain
    decays over 0.012 s in the press tone and over 0.012 s in the release
    tone, so not every window of the release tone is longer. *)
Lemma release_snap_decay_is_not_longer :
  ~ releaseLowerLongerDifferent browser initial
      {| ctxId := 0; sampleRate := 48000; nodeCount := 0 |}.
Proof.
  unfold releaseLowerLongerDifferent, pairwise. intros (_ & Hwin & _).
  cbn in Hwin.
  inversion Hwin as [|x1 y1 l1 l1' _ Hrest]; subst.
  inversion Hrest as [|x2 y2 l2 l2' [_ Hlt] _]; subst.
  cbn in Hlt. revert Hlt. apply Qlt_irrefl.
Qed.

(** C8, amended. Whenever a context is available, the release tone starts
    both frequency sweeps lower than the press tone does (2800 Hz against
    4500 Hz for the snap, 300 Hz against 400 Hz for the body), its peak
    gains are different (0.5 against 0.7, 0.4 against 0.3), and none of its
    windows is shorter: the snap's frequency ramp (0.012 s against
    0.008 s), the body's frequency ramp and the body's gain decay (0.05 s
    against 0.03 s) are longer, the snap's gain decay is 0.012 s in both. *)
Theorem release_tone_against_press_tone
    (h : Host) (w : World) (c : AudioContextObj) :
  contextFor h w = Some c ->
  pairwise (fun p r => r < p)
    (startFrequencies (calls (playClickSound h down w)))
    (startFrequencies (calls (playClickSound h up w))) /\
  pairwise (fun p r => ~ p == r)
    (peakGains (calls (playClickSound h down w)))
    (peakGains (calls (playClickSound h up w))) /\
  pairwise (fun p r => p <= r)
    (windows (currentTime h c) (calls (playClickSound h down w)))
    (windows (currentTime h c) (calls (playClickSound h up w))) /\
  Forall2 (fun x d => snd x == d)
    (windows (currentTime h c) (calls (playClickSound h down w)))
    [0.008; 0.012; 0.03; 0.03] /\
  Forall2 (fun x d => snd x == d)
    (windows (currentTime h c) (calls (playClickSound h up w)))
    [0.012; 0.012; 0.05; 0.05] /\
  map snd (startFrequencies (calls (playClickSound h down w))) = [4500; 400] /\
  map snd (startFrequencies (calls (playClickSound h up w))) = [2800; 300] /\
  map snd (peakGains (calls (playClickSound h down w))) = [0.7; 0.3] /\
  map snd (peakGains (calls (playClickSound h up w))) = [0.5; 0.4].
Proof.
  intros Hc. unfold pairwise.
  destruct (playClickSound_available h down w c Hc) as (b1 & Hb1 & Hcs1).
  destruct (playClickSound_available h up w c Hc) as (b2 & Hb2 & Hcs2).
  rewrite Hcs1, Hcs2.
  unfold windows, startFrequencies, peakGains, envelopeStarts, envelopeEnds.
  rewrite !(preamble_flat_map b1 Hb1), !(preamble_flat_map b2 Hb2) by reflexivity.
  cbn -[Qplus Qminus currentTime].
  repeat split; repeat constructor; cbn -[Qplus Qminus currentTime]; lra.
Qed.

Lemma release_tone_against_press_tone_witness :
  map snd (startFrequencies (calls (playClickSound browser down initial))) = [4500; 400] /\
  map snd (startFrequencies (calls (playClickSound browser up initial))) = [2800; 300].
Proof.
  destruct (release_tone_against_press_tone browser initial
              {| ctxId := 0; sampleRate := 48000; nodeCount := 0 |} eq_refl)
    as (_ & _ & _ & _ & _ & Hp & Hr & _).
  split; [exact Hp | exact Hr].
Defined.

(** The other revision of the source has the same shape: there too the
    snap's gain decay is equally long in both tones (0.015 s), and the other
    three windows are longer in the release tone. *)
Lemma other_revision_windows :
  Forall2 (fun x d => snd x == d)
    (windows (4800 # 48000) (calls (OtherRevision.playClickSound browser down initial)))
    [0.01; 0.015; 0.04; 0.04] /\
  Forall2 (fun x d => snd x == d)
    (windows (4800 # 48000) (calls (OtherRevision.playClickSound browser up initial)))
    [0.015; 0.015; 0.06; 0.06].
Proof. split; repeat constructor. Qed.

(** * Further properties of the controller *)

(** X1. A press is not guarded by the state: whether or not the button is
    already pressed, [mousedown] and [touchstart] complete normally, set
    [isPressed] to true, request the press tone (whose Web Audio calls
    follow), leave [isOn] alone and never call [onToggle]. *)
Theorem press_always_presses (h : Host) (e : EventType) (w : World) :
  isPress e = true ->
  completion (button h e w) = Normal tt /\
  isPressed (world (button h e w)) = true /\
  isOn (world (button h e w)) = isOn w /\
  (exists audio,
     forallb isAudioCall audio = true /\
     calls (button h e w) = [SetIsPressed true; PlayClickSound down] ++ audio) /\
  toneEvents (calls (button h e w)) = [down] /\
  toggles (calls (button h e w)) = 0%nat.
Proof.
  intros He.
  assert (Hrun : button h e w =
    (Normal tt, world (playClickSound h down (setPressed true w)),
     SetIsPressed true :: calls (playClickSound h down (setPressed true w)))).
  { destruct e; try discriminate He; cbn [button]; apply handlePressStart_run. }
  rewrite Hrun. cbn [fst snd].
  rewrite playClickSound_isPressed, playClickSound_isOn, playClickSound_calls.
  repeat split.
  - exists (clickAudio h down (setPressed true w)).
    split; [apply clickAudio_audio | reflexivity].
  - change (toneEvents (SetIsPressed true :: PlayClickSound down ::
                        clickAudio h down (setPressed true w)))
      with (down :: toneEvents (clickAudio h down (setPressed true w))).
    rewrite audio_toneEvents by apply clickAudio_audio. reflexivity.
  - change (toggles (SetIsPressed true :: PlayClickSound down ::
                     clickAudio h down (setPressed true w)))
      with (toggles (clickAudio h down (setPressed true w))).
    apply audio_toggles, clickAudio_audio.
Qed.

Lemma press_always_presses_witness :
  isPressed (world (button silentHost touchstart (setPressed true initial))) = true /\
  toneEvents (calls (button silentHost touchstart (setPressed true initial))) = [down].
Proof.
  destruct (press_always_presses silentHost touchstart (setPressed true initial) eq_refl)
    as (_ & Hp & _ & _ & Ht & _).
  split; [exact Hp | exact Ht].
Defined.

(** X2. While the button is not pressed, releases and leaves do nothing,
    however many arrive: the component state stays exactly as it was, and
    the only calls made are the [preventDefault] of each [touchend]. *)
Theorem released_ignores_releases_and_leaves
    (inputs : list (Host * EventType)) (w : World) :
  isPressed w = false ->
  forallb (fun i => isRelease (snd i) || isLeave (snd i)) inputs = true ->
  interact inputs w = (w, flat_map (fun i => preventCalls (snd i)) inputs).
Proof.
  revert w. induction inputs as [|[h e] rest IH]; intros w Hp Hall; [reflexivity|].
  cbn [forallb snd] in Hall. apply andb_prop in Hall as [He Hrest].
  rewrite interact_cons.
  assert (Hrun : button h e w = (Normal tt, w, preventCalls e)).
  { destruct e; try discriminate He; cbn [button];
      rewrite ?handlePressEnd_run, ?handleMouseLeave_run, Hp; reflexivity. }
  rewrite Hrun. cbn [fst snd]. rewrite (IH w Hp Hrest). reflexivity.
Qed.

Lemma released_ignores_releases_and_leaves_witness :
  interact [(browser, mouseleave); (browser, touchend); (silentHost, mouseup)] initial =
  (initial, [PreventDefault]).
Proof.
  apply (released_ignores_releases_and_leaves
           [(browser, mouseleave); (browser, touchend); (silentHost, mouseup)] initial);
    reflexivity.
Defined.

(** X3. Over a whole interaction, on whatever hosts, [onToggle] is called
    once for each release event that comes directly after a press event,
    and for no other event. *)
Theorem toggles_count_commits (inputs : list (Host * EventType)) (w : World) :
  toggles (snd (interact inputs w)) = commits (isPressed w) (map snd inputs).
Proof.
  revert w. induction inputs as [|[h e] rest IH]; intros w; [reflexivity|].
  rewrite interact_cons. cbn [fst snd map commits].
  rewrite toggles_app, button_toggles, IH, button_isPressed. reflexivity.
Qed.

(** X4. The switch state [App] owns follows the toggle calls and nothing
    else: after any interaction [isOn] is its initial value when
    [onToggle] was called an even number of times, and the opposite
    otherwise. *)
Theorem isOn_follows_toggle_parity (inputs : list (Host * EventType)) (w : World) :
  isOn (fst (interact inputs w)) =
  if Nat.even (toggles (snd (interact inputs w))) then isOn w else negb (isOn w).
Proof.
  revert w. induction inputs as [|[h e] rest IH]; intros w; [reflexivity|].
  rewrite interact_cons. cbn [fst snd].
  rewrite IH, toggles_app, button_isOn, button_toggles.
  destruct (isPressed w && isRelease e).
  - rewrite Nat.even_succ, <- Nat.negb_even.
    destruct (Nat.even _); cbn; [reflexivity | apply negb_involutive].
  - reflexivity.
Qed.

Lemma toneEvents_controllerCalls cs : toneEvents (controllerCalls cs) = toneEvents cs.
Proof.
  unfold toneEvents, controllerCalls.
  induction cs as [|c l IH]; [reflexivity|].
  destruct c; cbn; rewrite ?IH; reflexivity.
Qed.

Lemma button_toneEvents h e w :
  toneEvents (calls (button h e w)) =
  if isPress e then [down]
  else if isRelease e && isPressed w then [up] else [].
Proof.
  rewrite <- toneEvents_controllerCalls.
  pose proof (button_controllerStep h e w) as H.
  apply (f_equal snd) in H. cbn [snd] in H. rewrite H.
  unfold controllerStep.
  destruct (isPress e), (isRelease e), (isPressed w); reflexivity.
Qed.

Lemma everyUpFollowsDown_interact inputs :
  forall w prev,
    (isPressed w = true -> prev = Some down) ->
    everyUpFollowsDown prev (toneEvents (snd (interact inputs w))) = true.
Proof.
  induction inputs as [|[h e] rest IH]; intros w prev Hprev; [reflexivity|].
  rewrite interact_cons. cbn [fst snd].
  rewrite toneEvents_app, button_toneEvents.
  destruct (isPress e) eqn:He.
  - cbn [app everyUpFollowsDown]. apply IH. reflexivity.
  - assert (Hnext : isPressed (world (button h e w)) = true -> Some up = Some down).
    { rewrite button_isPressed, He. discriminate. }
    destruct (isRelease e && isPressed w) eqn:Hr.
    + apply andb_prop in Hr as [_ Hp]. rewrite (Hprev Hp).
      cbn [app everyUpFollowsDown]. apply IH. exact Hnext.
    + cbn [app]. apply IH.
      rewrite button_isPressed, He. discriminate.
Qed.

Lemma countTone_app ty ts1 ts2 :
  countTone ty (ts1 ++ ts2) = (countTone ty ts1 + countTone ty ts2)%nat.
Proof. unfold countTone. rewrite filter_app, length_app. reflexivity. Qed.

(** X5. In the tones requested over an interaction that starts with the
    button released, every release tone comes directly after a press tone;
    there are as many release tones as [onToggle] calls, and as many press
    tones as press events. *)
Theorem release_tone_follows_press_tone
    (inputs : list (Host * EventType)) (w : World) :
  isPressed w = false ->
  everyUpFollowsDown None (toneEvents (snd (interact inputs w))) = true /\
  countTone up (toneEvents (snd (interact inputs w))) =
    toggles (snd (interact inputs w)) /\
  countTone down (toneEvents (snd (interact inputs w))) =
    length (filter (fun i => isPress (snd i)) inputs).
Proof.
  intros Hp. split.
  { apply everyUpFollowsDown_interact. rewrite Hp. discriminate. }
  clear Hp. revert w.
  induction inputs as [|[h e] rest IH]; intros w; [split; reflexivity|].
  rewrite interact_cons. cbn [fst snd filter].
  rewrite toneEvents_app, !countTone_app, toggles_app, button_toneEvents,
    button_toggles.
  destruct (IH (world (button h e w))) as [IHu IHd]. rewrite IHu, IHd.
  destruct e, (isPressed w); cbn; auto.
Qed.

Lemma release_tone_follows_press_tone_witness :
  everyUpFollowsDown None
    (toneEvents (snd (interact [(browser, mousedown); (browser, mousedown);
                                (browser, mouseup); (browser, mouseup)] initial)))
  = true.
Proof.
  apply (release_tone_follows_press_tone
           [(browser, mousedown); (browser, mousedown);
            (browser, mouseup); (browser, mouseup)] initial eq_refl).
Defined.

(** * Further properties of the audio engine *)

Lemma playClickSound_existing h type w c :
  audioContextRef w = Some c ->
  world (playClickSound h type w) = withRef w (Some (bump 5 c)) (constructed w) /\
  constructions (calls (playClickSound h type w)) = [].
Proof.
  intros Hr. rewrite playClickSound_run. cbn [fst snd].
  unfold contextFor, constructedAfter, acquireCalls, contextFor. rewrite Hr.
  destruct (state h), type; split; reflexivity.
Qed.

Lemma button_existing h e w c :
  audioContextRef w = Some c ->
  constructions (calls (button h e w)) = [] /\
  constructed (world (button h e w)) = constructed w /\
  exists c',
    audioContextRef (world (button h e w)) = Some c' /\
    ctxId c' = ctxId c /\ sampleRate c' = sampleRate c /\
    nodeCount c' = (nodeCount c + 5 * length (toneEvents (calls (button h e w))))%nat.
Proof.
  intros Hr. rewrite button_toneEvents.
  assert (Hplay : forall type b,
    world (playClickSound h type (setPressed b w)) =
      withRef (setPressed b w) (Some (bump 5 c)) (constructed w) /\
    constructions (calls (playClickSound h type (setPressed b w))) = []).
  { intros type b. apply (playClickSound_existing h type (setPressed b w) c Hr). }
  destruct e; cbn [button isPress isRelease];
    rewrite ?handlePressStart_run, ?handlePressEnd_run, ?handleMouseLeave_run;
    cbn [fst snd andb];
    try rewrite constructions_app, constructions_preventCalls;
    destruct (isPressed w); cbn [app];
    try (change (constructions (SetIsPressed false ::
                   calls (playClickSound h up (setPressed false w)) ++ [OnToggle]))
           with (constructions (calls (playClickSound h up (setPressed false w)) ++ [OnToggle]));
         rewrite constructions_app);
    try (change (constructions (SetIsPressed true ::
                   calls (playClickSound h down (setPressed true w))))
           with (constructions (calls (playClickSound h down (setPressed true w)))));
    try (destruct (Hplay down true) as [Hw Hn]; rewrite Hw, Hn);
    try (destruct (Hplay up false) as [Hw Hn]; rewrite Hw, Hn);
    (split; [reflexivity|]); (split; [reflexivity|]);
    cbn [toggled withRef setPressed audioContextRef length Nat.mul Nat.add].
  all: try (exists (bump 5 c); repeat split; cbn; lia).
  all: exists c; repeat split; try assumption; lia.
Qed.

(** X6. Once the ref holds an audio context, no interaction ever clears
    or replaces it: after any sequence of events, on whatever hosts, the
    ref holds a context with the same identity and sample rate, nothing
    has been constructed, and the context has gained exactly five nodes
    for each tone requested. *)
Theorem existing_context_is_kept
    (inputs : list (Host * EventType)) (w : World) (c : AudioContextObj) :
  audioContextRef w = Some c ->
  constructions (snd (interact inputs w)) = [] /\
  constructed (fst (interact inputs w)) = constructed w /\
  exists c',
    audioContextRef (fst (interact inputs w)) = Some c' /\
    ctxId c' = ctxId c /\ sampleRate c' = sampleRate c /\
    nodeCount c' =
      (nodeCount c + 5 * length (toneEvents (snd (interact inputs w))))%nat.
Proof.
  revert w c. induction inputs as [|[h e] rest IH]; intros w c Hr.
  - cbn. repeat split. exists c. repeat split; [assumption | lia].
  - rewrite interact_cons. cbn [fst snd].
    destruct (button_existing h e w c Hr) as (Hn & Hk & c1 & Hr1 & Hid1 & Hsr1 & Hnc1).
    destruct (IH _ c1 Hr1) as (Hn' & Hk' & c2 & Hr2 & Hid2 & Hsr2 & Hnc2).
    rewrite constructions_app, Hn, Hn', Hk', Hk, toneEvents_app, length_app.
    repeat split. exists c2. repeat split; try congruence. lia.
Qed.

Lemma existing_context_is_kept_witness :
  exists c',
    audioContextRef
      (fst (interact [(silentHost, mouseup); (silentHost, mousedown)]
              (fst (interact [(browser, mousedown)] initial)))) = Some c' /\
    ctxId c' = 0%nat /\ sampleRate c' = 48000%positive.
Proof.
  destruct (existing_context_is_kept [(silentHost, mouseup); (silentHost, mousedown)]
              (fst (interact [(browser, mousedown)] initial))
              {| ctxId := 0; sampleRate := 48000; nodeCount := 5 |} eq_refl)
    as (_ & _ & c' & Hr & Hid & Hsr & _).
  exists c'. repeat split; assumption.
Defined.

(** X7. [getAudioContext] asks the context to resume exactly when it has
    a context to return and the host reports it suspended, once, and on the
    context it returns; and within a click the whole acquisition comes
    first: the calls that follow it build and schedule the graph, and none
    of them constructs or resumes a context. *)
Theorem resume_only_when_suspended (h : Host) (type : ClickType) (w : World) :
  resumes (calls (getAudioContext h w)) =
    match completion (getAudioContext h w), state h with
    | Normal (Some c), suspended => [ctxId c]
    | _, _ => []
    end /\
  createdOscillators (calls (getAudioContext h w)) = [] /\
  createdGains (calls (getAudioContext h w)) = [] /\
  exists graph,
    calls (playClickSound h type w) =
      PlayClickSound type :: calls (getAudioContext h w) ++ graph /\
    resumes graph = [] /\ constructions graph = [].
Proof.
  rewrite playClickSound_run, getAudioContext_run. cbn [fst snd].
  unfold acquireCalls, contextFor.
  destruct (audioContextRef w) as [c|], (audioContextConstructor h) as [k|],
    (state h); cbn; repeat split; eexists; repeat split;
    destruct type; reflexivity.
Qed.

(** * The switch state does not reach the controller *)

Lemma playClickSound_setIsOn b h type w :
  playClickSound h type (setIsOn b w) =
  (Normal tt, setIsOn b (world (playClickSound h type w)),
   calls (playClickSound h type w)).
Proof.
  rewrite !playClickSound_run. cbn [fst snd].
  unfold contextFor, acquireCalls, contextFor, constructedAfter, withRef, setIsOn.
  destruct w as [on pr [c|] n]; cbn [audioContextRef constructed isOn isPressed];
    destruct (audioContextConstructor h); reflexivity.
Qed.

Lemma button_setIsOn b h e w :
  button h e (setIsOn b w) =
  (Normal tt,
   setIsOn (if isPressed w && isRelease e then negb b else b) (world (button h e w)),
   calls (button h e w)).
Proof.
  destruct e; cbn [button isRelease];
    rewrite ?handlePressStart_run, ?handlePressEnd_run, ?handleMouseLeave_run;
    cbn [fst snd setIsOn isPressed];
    rewrite ?andb_false_r, ?andb_true_r;
    try change (setPressed true (setIsOn b w)) with (setIsOn b (setPressed true w));
    try change (setPressed false (setIsOn b w)) with (setIsOn b (setPressed false w));
    rewrite ?playClickSound_setIsOn; cbn [fst snd];
    destruct (isPressed w); try reflexivity.
  all: destruct w; reflexivity.
Qed.

(** X8. Nothing the component does depends on the switch state: started
    from two states that differ only in [isOn], an interaction makes the
    same calls in the same order and ends with the same [isPressed], the
    same audio context and the same construction count. *)
Theorem isOn_is_never_read
    (inputs : list (Host * EventType)) (b : bool) (w : World) :
  snd (interact inputs (setIsOn b w)) = snd (interact inputs w) /\
  isPressed (fst (interact inputs (setIsOn b w))) = isPressed (fst (interact inputs w)) /\
  audioContextRef (fst (interact inputs (setIsOn b w))) =
    audioContextRef (fst (interact inputs w)) /\
  constructed (fst (interact inputs (setIsOn b w))) =
    constructed (fst (interact inputs w)).
Proof.
  revert b w. induction inputs as [|[h e] rest IH]; intros b w.
  - cbn. auto.
  - rewrite !interact_cons, button_setIsOn. cbn [fst snd].
    destruct (IH (if isPressed w && isRelease e then negb b else b)
                 (world (button h e w))) as (Hc & Hp & Hr & Hk).
    rewrite Hc, Hp, Hr, Hk. auto.
Qed.

(** * Further properties of the envelopes *)

Ltac read_tone h type w c Hc :=
  let before := fresh "before" in
  let Hb := fresh "Hb" in
  let Hcs := fresh "Hcs" in
  destruct (playClickSound_available h type w c Hc) as (before & Hb & Hcs);
  rewrite Hcs;
  unfold shapes, peakGains, startFrequencies, scheduledTimes, envelopeParams,
    createdOscillators, connections, stops, starts, envelopeStarts, envelopeEnds;
  rewrite !(preamble_flat_map before Hb) by reflexivity;
  clear Hcs Hb before.

(** X9. In every click that obtains a context, for either tone, exactly
    four parameters are automated, each once: the start value is set at the
    reference time [t = ctx.currentTime] and, in the very next call, an
    exponential ramp on the same parameter leads to a target that is
    positive, below the start value, and reached after [t].  Peak gains lie
    in (0, 1] and every gain decays to 0.001. *)
Theorem envelopes_sweep_downward
    (h : Host) (type : ClickType) (w : World) (c : AudioContextObj) :
  contextFor h w = Some c ->
  Forall2 (fun s e =>
             fst (fst s) = fst (fst e) /\
             snd s = currentTime h c /\ snd s < snd e /\
             0 < snd (fst e) /\ snd (fst e) < snd (fst s))
          (envelopeStarts (calls (playClickSound h type w)))
          (envelopeEnds (calls (playClickSound h type w))) /\
  envelopeParams (calls (playClickSound h type w)) =
    flat_map (fun s => [fst (fst s); fst (fst s)])
             (envelopeStarts (calls (playClickSound h type w))) /\
  length (envelopeStarts (calls (playClickSound h type w))) = 4%nat /\
  NoDup (map (fun s => fst (fst s))
             (envelopeStarts (calls (playClickSound h type w)))) /\
  Forall (fun g => 0 < snd g /\ snd g <= 1)
         (peakGains (calls (playClickSound h type w))) /\
  Forall (fun e => match fst (fst e) with
                   | gain _ => snd (fst e) == 0.001
                   | frequency _ => True
                   end)
         (envelopeEnds (calls (playClickSound h type w))).
Proof.
  intros Hc.
  pose proof (currentTime_nonneg h c) as Ht.
  read_tone h type w c Hc.
  destruct type; cbn -[Qplus Qle Qlt Qeq currentTime].
  all: repeat split.
  all: repeat constructor; cbn -[Qplus Qle Qlt Qeq currentTime];
       try lra; try reflexivity.
  all: intros H;
       repeat (destruct H as [H|H];
               [try discriminate H; try (injection H; intros; lia)|]);
       contradiction.
Qed.

Lemma envelopes_sweep_downward_witness :
  length (envelopeStarts (calls (playClickSound browser down initial))) = 4%nat /\
  Forall (fun g => 0 < snd g /\ snd g <= 1)
         (peakGains (calls (playClickSound browser down initial))).
Proof.
  destruct (envelopes_sweep_downward browser down initial
              {| ctxId := 0; sampleRate := 48000; nodeCount := 0 |} eq_refl)
    as (_ & _ & Hlen & _ & Hg & _).
  split; [exact Hlen | exact Hg].
Defined.

(** X10. In every click that obtains a context, for either tone, each
    envelope belongs to one of the two oscillators just created (it is that
    oscillator's frequency, or the gain of the node the oscillator feeds)
    and has run its course by the time that oscillator is stopped; and every
    time handed to the audio clock lies between [t] and [t + 0.1]: the
    click is over a tenth of a second after the event. *)
Theorem envelopes_end_before_stop
    (h : Host) (type : ClickType) (w : World) (c : AudioContextObj) :
  contextFor h w = Some c ->
  Forall (fun e =>
            exists o stopTime,
              In o (createdOscillators (calls (playClickSound h type w))) /\
              shapes (calls (playClickSound h type w)) o (fst (fst e)) /\
              In (o, stopTime) (stops (calls (playClickSound h type w))) /\
              snd e <= stopTime)
         (envelopeEnds (calls (playClickSound h type w))) /\
  Forall (fun x => currentTime h c <= x /\ x <= currentTime h c + 0.1)
         (scheduledTimes (calls (playClickSound h type w))).
Proof.
  intros Hc.
  pose proof (currentTime_nonneg h c) as Ht.
  read_tone h type w c Hc.
  set (n := nodeCount c). set (t := currentTime h c) in *.
  destruct type; cbn -[Qplus Qle Qlt Qeq]; fold n; fold t; split.
  1,3: repeat (apply Forall_cons;
         [ cbn [fst snd];
           first
             [ exists (S n), (t + 0.03);
               split; [auto|];
               split; [first [ left; reflexivity
                             | right; eexists; split; [reflexivity | auto 10] ]|];
               split; [auto | lra]
             | exists (S (S (S n))), (t + 0.1);
               split; [auto|];
               split; [first [ left; reflexivity
                             | right; eexists; split; [reflexivity | auto 10] ]|];
               split; [auto | lra] ]
         | ]); apply Forall_nil.
  all: repeat (apply Forall_cons; [split; lra|]); apply Forall_nil.
Qed.

Lemma envelopes_end_before_stop_witness :
  Forall (fun x => (4800 # 48000) <= x /\ x <= (4800 # 48000) + 0.1)
         (scheduledTimes (calls (playClickSound browser up initial))).
Proof.
  apply (envelopes_end_before_stop browser up initial
           {| ctxId := 0; sampleRate := 48000; nodeCount := 0 |} eq_refl).
Defined.

(** X11. In every click that obtains a context, for either tone, the peak
    gains of the two voices add up to at most 1, so the sum that reaches
    the unity master gain does not exceed full scale. *)
Theorem peak_gains_do_not_clip
    (h : Host) (type : ClickType) (w : World) (c : AudioContextObj) :
  contextFor h w = Some c ->
  sumQ (map snd (peakGains (calls (playClickSound h type w)))) <= 1 /\
  fixedValues (calls (playClickSound h type w)) =
    [(gain (nodeCount c), 1.0)].
Proof.
  intros Hc.
  destruct (playClickSound_available h type w c Hc) as (before & Hb & Hcs).
  rewrite Hcs. unfold peakGains, envelopeStarts, fixedValues.
  rewrite !(preamble_flat_map before Hb) by reflexivity.
  destruct type; cbn -[Qplus Qle currentTime]; split; try reflexivity; lra.
Qed.

Lemma peak_gains_do_not_clip_witness :
  sumQ (map snd (peakGains (calls (playClickSound browser down initial)))) <= 1.
Proof.
  apply (peak_gains_do_not_clip browser down initial
           {| ctxId := 0; sampleRate := 48000; nodeCount := 0 |} eq_refl).
Defined.

(** * The two revisions of the source *)

Lemma other_playClickSound_run h type w :
  OtherRevision.playClickSound h type w =
  (Normal tt,
   match contextFor h w with
   | Some c => withRef w (Some (bump 5 c)) (constructedAfter h w)
   | None => w
   end,
   PlayClickSound type :: acquireCalls h w ++
   match contextFor h w with
   | Some c => otherToneCalls type (nodeCount c) (currentTime h c)
   | None => []
   end).
Proof.
  unfold OtherRevision.playClickSound.
  unfold bind at 1. cbn [call].
  unfold bind at 1. rewrite getAudioContext_run.
  destruct (contextFor h w) as [c|] eqn:Hc.
  2:{ cbn. rewrite app_nil_r. reflexivity. }
  unfold ctx_currentTime, ctx_createGain, ctx_createOscillator, newNode,
    withContext, setContext, setValueAtTime, exponentialRampToValueAtTime,
    start, stop, bind, get, put, call, ret, withRef, otherToneCalls,
    otherEnvelopeCalls, bump.
  destruct type;
    repeat (cbn -[Qplus currentTime validTime];
            rewrite ?validTime_currentTime, ?validTime_after by lra);
    reflexivity.
Qed.

Lemma skeleton_app cs1 cs2 : skeleton (cs1 ++ cs2) = skeleton cs1 ++ skeleton cs2.
Proof. apply filter_app. Qed.

Lemma envelopeParams_app cs1 cs2 :
  envelopeParams (cs1 ++ cs2) = envelopeParams cs1 ++ envelopeParams cs2.
Proof. apply flat_map_app. Qed.

Lemma other_playClickSound_same h type w :
  completion (OtherRevision.playClickSound h type w) =
    completion (playClickSound h type w) /\
  world (OtherRevision.playClickSound h type w) = world (playClickSound h type w) /\
  skeleton (calls (OtherRevision.playClickSound h type w)) =
    skeleton (calls (playClickSound h type w)) /\
  envelopeParams (calls (OtherRevision.playClickSound h type w)) =
    envelopeParams (calls (playClickSound h type w)).
Proof.
  rewrite other_playClickSound_run, playClickSound_run. cbn [fst snd].
  repeat split.
  - change (PlayClickSound type :: ?l) with ([PlayClickSound type] ++ l).
    rewrite !skeleton_app. do 2 f_equal.
    destruct (contextFor h w); [|reflexivity].
    destruct type; cbn -[Qplus currentTime]; reflexivity.
  - change (PlayClickSound type :: ?l) with ([PlayClickSound type] ++ l).
    rewrite !envelopeParams_app. do 2 f_equal.
    destruct (contextFor h w); [|reflexivity].
    destruct type; cbn -[Qplus currentTime]; reflexivity.
Qed.

Lemma other_button_run h e w :
  OtherRevision.button h e w =
  match e with
  | mousedown | touchstart =>
      (Normal tt, world (OtherRevision.playClickSound h down (setPressed true w)),
       SetIsPressed true :: calls (OtherRevision.playClickSound h down (setPressed true w)))
  | mouseup | touchend =>
      (Normal tt,
       if isPressed w
       then toggled (world (OtherRevision.playClickSound h up (setPressed false w)))
       else w,
       if isPressed w
       then SetIsPressed false ::
            calls (OtherRevision.playClickSound h up (setPressed false w)) ++ [OnToggle]
       else [])
  | mouseleave =>
      (Normal tt,
       if isPressed w then setPressed false w else w,
       if isPressed w then [SetIsPressed false] else [])
  end.
Proof.
  destruct e; cbn [OtherRevision.button];
    unfold OtherRevision.handlePressStart, OtherRevision.handlePressEnd,
      OtherRevision.handleMouseLeave, setIsPressed, onToggle, bind, get, put,
      call, ret;
    cbn -[OtherRevision.playClickSound];
    try (destruct (isPressed w); [|reflexivity]);
    cbn -[OtherRevision.playClickSound];
    try fold (setPressed true w); try fold (setPressed false w);
    rewrite ?other_playClickSound_run; reflexivity.
Qed.

Lemma skeleton_preventCalls e : skeleton (preventCalls e) = [].
Proof. destruct e; reflexivity. Qed.

(** X12. The two revisions of the component in the source file behave
    alike except for the envelope constants and the [preventDefault] of
    [touchend]: on every host, for every event and in every state, they
    complete alike, leave the same state, and make the same calls in the
    same order once envelope points and [preventDefault] are set aside;
    and their clicks automate the same parameters in the same order. *)
Theorem revisions_differ_only_in_envelopes
    (h : Host) (e : EventType) (type : ClickType) (w : World) :
  completion (OtherRevision.button h e w) = completion (button h e w) /\
  world (OtherRevision.button h e w) = world (button h e w) /\
  skeleton (calls (OtherRevision.button h e w)) = skeleton (calls (button h e w)) /\
  world (OtherRevision.playClickSound h type w) = world (playClickSound h type w) /\
  skeleton (calls (OtherRevision.playClickSound h type w)) =
    skeleton (calls (playClickSound h type w)) /\
  envelopeParams (calls (OtherRevision.playClickSound h type w)) =
    envelopeParams (calls (playClickSound h type w)).
Proof.
  destruct (other_playClickSound_same h type w) as (_ & Hw & Hs & Hp).
  destruct (other_playClickSound_same h down (setPressed true w)) as (_ & Hwd & Hsd & _).
  destruct (other_playClickSound_same h up (setPressed false w)) as (_ & Hwu & Hsu & _).
  split; [|split; [|split; [|split; [exact Hw | split; [exact Hs | exact Hp]]]]].
  - rewrite other_button_run.
    destruct e; cbn [button];
      rewrite ?handlePressStart_run, ?handlePressEnd_run, ?handleMouseLeave_run;
      cbn [fst snd]; reflexivity.
  - rewrite other_button_run.
    destruct e; cbn [button];
      rewrite ?handlePressStart_run, ?handlePressEnd_run, ?handleMouseLeave_run;
      cbn [fst snd]; try rewrite Hwd; try rewrite Hwu; reflexivity.
  - rewrite other_button_run.
    assert (Hcons : forall b l,
      skeleton (SetIsPressed b :: l) = SetIsPressed b :: skeleton l) by reflexivity.
    destruct e; cbn [button];
      rewrite ?handlePressStart_run, ?handlePressEnd_run, ?handleMouseLeave_run;
      cbn [fst snd];
      try rewrite skeleton_app, skeleton_preventCalls; cbn [app].
    1,4: rewrite !Hcons, Hsd; reflexivity.
    1,3: destruct (isPressed w);
         [rewrite !Hcons, !skeleton_app, Hsu; reflexivity | reflexivity].
    destruct (isPressed w); reflexivity.
Qed.


(** * Properties of the rendered view *)

(** X14. In both themes the button is drawn on the colour of the page
    behind it: the [backgroundColor] the component gives the button is the
    [backgroundColor] [App] gives the page for the same [isOn]. *)
Theorem button_blends_into_page (on pressed : bool) :
  backgroundColor (NeumorphicDropButton on pressed) = App_backgroundColor on.
Proof. destruct on; reflexivity. Qed.

(** X15. The view never hides the state: the box shadow alone tells all
    four combinations of switch state and pressed state apart, and so do
    [aria-label] and [aria-pressed] together. *)
Theorem view_shows_the_state (on pressed on' pressed' : bool) :
  (boxShadow (NeumorphicDropButton on pressed) =
   boxShadow (NeumorphicDropButton on' pressed') ->
   on = on' /\ pressed = pressed') /\
  (ariaLabel (NeumorphicDropButton on pressed) =
   ariaLabel (NeumorphicDropButton on' pressed') ->
   ariaPressed (NeumorphicDropButton on pressed) =
   ariaPressed (NeumorphicDropButton on' pressed') ->
   on = on' /\ pressed = pressed').
Proof.
  split.
  - destruct on, pressed, on', pressed'; cbn; intros H;
      first [split; reflexivity | discriminate H].
  - destruct on, pressed, on', pressed'; cbn; intros H H';
      first [split; reflexivity | discriminate H | discriminate H'].
Qed.

Lemma view_shows_the_state_witness : true = true /\ false = false.
Proof.
  apply (proj1 (view_shows_the_state true false true false)). reflexivity.
Defined.

Lemma press_is_not_release e : isPress e = true -> isRelease e = false.
Proof. destruct e; cbn; congruence. Qed.

Lemma release_is_not_press e : isRelease e = true -> isPress e = false.
Proof. destruct e; cbn; congruence. Qed.

(** X16. What the user sees of a click, on whatever hosts and from
    whatever state: after the press the button is drawn pressed in the
    unchanged theme (inset shadow, scaled to 0.96, 50 ms transitions);
    after the release that follows it is drawn flat in the other theme,
    so background colour and [aria-label] have both changed, and the page
    background has changed with them. *)
Theorem click_flips_the_view
    (h1 h2 : Host) (e1 e2 : EventType) (w : World) :
  isPress e1 = true -> isRelease e2 = true ->
  view (fst (interact [(h1, e1)] w)) = NeumorphicDropButton (isOn w) true /\
  boxShadow (view (fst (interact [(h1, e1)] w))) = currentPressed (isOn w) /\
  transform (view (fst (interact [(h1, e1)] w))) = "scale(0.96)"%string /\
  transitionDuration (view (fst (interact [(h1, e1)] w))) = "700ms, 50ms, 50ms"%string /\
  view (fst (interact [(h1, e1); (h2, e2)] w)) =
    NeumorphicDropButton (negb (isOn w)) false /\
  boxShadow (view (fst (interact [(h1, e1); (h2, e2)] w))) =
    currentFlat (negb (isOn w)) /\
  backgroundColor (view (fst (interact [(h1, e1); (h2, e2)] w))) <>
    backgroundColor (view w) /\
  ariaLabel (view (fst (interact [(h1, e1); (h2, e2)] w))) <> ariaLabel (view w) /\
  App_backgroundColor (isOn (fst (interact [(h1, e1); (h2, e2)] w))) <>
    App_backgroundColor (isOn w).
Proof.
  intros He1 He2.
  pose proof (press_is_not_release e1 He1) as Hr1.
  pose proof (release_is_not_press e2 He2) as Hp2.
  assert (Hmid : view (fst (interact [(h1, e1)] w)) = NeumorphicDropButton (isOn w) true).
  { unfold view. rewrite interact_cons. cbn [interact fst snd].
    rewrite button_isPressed, button_isOn, He1, Hr1, andb_false_r. reflexivity. }
  assert (Hon : isOn (fst (interact [(h1, e1); (h2, e2)] w)) = negb (isOn w)).
  { rewrite !interact_cons. cbn [interact fst snd].
    rewrite button_isOn, button_isPressed, He1, He2.
    cbn [andb]. rewrite button_isOn, Hr1, andb_false_r. reflexivity. }
  assert (Hend : view (fst (interact [(h1, e1); (h2, e2)] w)) =
                 NeumorphicDropButton (negb (isOn w)) false).
  { unfold view. rewrite Hon. f_equal.
    rewrite !interact_cons. cbn [interact fst snd].
    rewrite button_isPressed. exact Hp2. }
  rewrite Hmid, Hend, Hon. unfold view.
  repeat split; destruct (isOn w); cbn; discriminate.
Qed.

Lemma click_flips_the_view_witness :
  view (fst (interact [(browser, touchstart); (browser, touchend)] initial)) =
    NeumorphicDropButton false false /\
  ariaLabel (view (fst (interact [(browser, touchstart); (browser, touchend)] initial)))
    = "Turn On"%string.
Proof.
  destruct (click_flips_the_view browser browser touchstart touchend initial
              eq_refl eq_refl) as (_ & _ & _ & _ & Hend & _).
  split; [exact Hend | rewrite Hend; reflexivity].
Defined.

(** * Lazy construction *)

(** X17. The audio context is made by the first press that finds a
    constructor: with the ref still empty, a press on a host that offers
    one constructs exactly one context (from [window.AudioContext] when
    that exists, from [webkitAudioContext] otherwise), stores it in the
    ref, and builds the click on it in the same call, so that it holds that
    click's five nodes when the handler returns. *)
Theorem first_press_creates_context
    (h : Host) (e : EventType) (w : World) (k : Constructor) :
  audioContextRef w = None ->
  audioContextConstructor h = Some k ->
  isPress e = true ->
  constructions (calls (button h e w)) = [constructed w] /\
  audioContextRef (world (button h e w)) =
    Some {| ctxId := constructed w; sampleRate := ctorSampleRate k; nodeCount := 5 |} /\
  constructed (world (button h e w)) = S (constructed w) /\
  length (createdOscillators (calls (button h e w))) = 2%nat /\
  length (createdGains (calls (button h e w))) = 3%nat /\
  (forall k', AudioContext h = Some k' -> k = k') /\
  (AudioContext h = None -> webkitAudioContext h = Some k).
Proof.
  intros Hr Hk He.
  assert (Hrun : button h e w =
    (Normal tt, world (playClickSound h down (setPressed true w)),
     SetIsPressed true :: calls (playClickSound h down (setPressed true w)))).
  { destruct e; try discriminate He; cbn [button]; apply handlePressStart_run. }
  rewrite Hrun, playClickSound_run. cbn [fst snd].
  unfold contextFor, acquireCalls, contextFor, constructedAfter.
  cbn [setPressed audioContextRef constructed]. rewrite Hr, Hk.
  split; [destruct (state h); reflexivity|].
  split; [reflexivity|]. split; [reflexivity|].
  split; [destruct (state h); reflexivity|].
  split; [destruct (state h); reflexivity|].
  unfold audioContextConstructor in Hk.
  split.
  - intros k' Hk'. rewrite Hk' in Hk. congruence.
  - intros Hnone. rewrite Hnone in Hk. exact Hk.
Qed.

Lemma first_press_creates_context_witness :
  constructions (calls (button browser mousedown initial)) = [0%nat] /\
  audioContextRef (world (button browser mousedown initial)) =
    Some {| ctxId := 0; sampleRate := 48000; nodeCount := 5 |}.
Proof.
  destruct (first_press_creates_context browser mousedown initial
              {| ctorSampleRate := 48000 |} eq_refl eq_refl eq_refl)
    as (Hn & Hr & _).
  split; [exact Hn | exact Hr].
Defined.
